(** * Voice-command detection: a shallow embedding of the detector,
      its variant generator, input validator and adaptive matcher.

    Source files embedded here:
    - [src/core/phoneme_variants.py]  (module [PhonemeVariants])
    - [src/utils/validators.py]       (module [InputValidator])
    - [src/utils/matcher.py]          (module [AdaptiveMatcher])
    - [src/core/voice_detector.py]    (module [SmartVoiceDetector])
    - [src/utils/accent_training.py]  (module [AccentTrainingMode])

    Python [str] values are sequences of Unicode code points; they are
    modelled as [list N].  Python numbers that mix [int] and [float]
    (scores, thresholds, clock readings) are modelled as exact rationals
    [Q]: every constant involved (0.5, 3.0, 8.0, 1/20 steps) and every
    comparison made by the code is then taken without rounding. *)

From Stdlib Require Import String Ascii NArith ZArith QArith Qminmax Lia Lqa.
From Stdlib Require Import Sorting.Sorted.
From stdpp Require Import base decidable option list gmap.

Local Open Scope Z_scope.
Local Open Scope list_scope.

(** ** Python built-ins on strings *)

Module Py.

Definition char := N.
Definition str := list N.

(** An ASCII literal as a Python string. *)
Definition py (s : string) : str :=
  List.map N_of_ascii (list_ascii_of_string s).

Definition within (lo hi c : N) : bool := (N.leb lo c && N.leb c hi)%bool.

(** [str.isspace] for one code point: the characters [str.split] and
    [str.strip] treat as whitespace, and the class [\s] of [re]. *)
Definition is_space (c : char) : bool :=
  (within 9 13 c || within 28 32 c || N.eqb c 133 || N.eqb c 160
   || N.eqb c 5760 || within 8192 8202 c || N.eqb c 8232 || N.eqb c 8233
   || N.eqb c 8239 || N.eqb c 8287 || N.eqb c 12288)%bool.

(** [str.lower], exact on Basic Latin and the Latin-1 Supplement.  All
    other code points are left as they are: every character of the
    repository's tables above U+00FF is a lowercase letter already. *)
Definition lower_char (c : char) : char :=
  if within 65 90 c then (c + 32)%N
  else if (within 192 222 c && negb (N.eqb c 215))%bool then (c + 32)%N
  else c.

Definition lower (s : str) : str := List.map lower_char s.

Fixpoint lstrip (s : str) : str :=
  match s with
  | [] => []
  | c :: s' => if is_space c then lstrip s' else s
  end.

Definition rstrip (s : str) : str := rev (lstrip (rev s)).

Definition strip (s : str) : str := rstrip (lstrip s).

(** [s.split()]: the maximal runs of non-whitespace characters. *)
Fixpoint split (s : str) : list str :=
  match s with
  | [] => []
  | c :: s' =>
      if is_space c then split s'
      else match s' with
           | [] => [[c]]
           | c' :: _ =>
               if is_space c' then [c] :: split s'
               else match split s' with
                    | w :: ws => (c :: w) :: ws
                    | [] => [[c]]
                    end
           end
  end.

(** [sep.join(l)] *)
Fixpoint join (sep : str) (l : list str) : str :=
  match l with
  | [] => []
  | [w] => w
  | w :: ws => w ++ sep ++ join sep ws
  end.

Fixpoint startswith (p s : str) : bool :=
  match p, s with
  | [], _ => true
  | _ :: _, [] => false
  | a :: p', b :: s' => (N.eqb a b && startswith p' s')%bool
  end.

(** [sub in s] on strings. *)
Fixpoint contains (sub s : str) : bool :=
  (startswith sub s ||
   match s with
   | [] => false
   | _ :: s' => contains sub s'
   end)%bool.

(** [s.replace(old, new)] for a non-empty [old]: occurrences are taken
    left to right and do not overlap; [skip] counts the characters of a
    matched occurrence still to be passed over. *)
Fixpoint replace_from (old new : str) (skip : nat) (s : str) : str :=
  match s with
  | [] => []
  | c :: s' =>
      match skip with
      | S k => replace_from old new k s'
      | O =>
          if startswith old s
          then new ++ replace_from old new (Nat.pred (length old)) s'
          else c :: replace_from old new 0 s'
      end
  end.

Definition replace (old new s : str) : str :=
  match old with
  | [] => new ++ flat_map (fun c => c :: new) s
  | _ => replace_from old new 0 s
  end.

(** [x in l] and [==] on strings. *)
Definition str_eqb (a b : str) : bool := bool_decide (a = b).
Definition mem (x : str) (l : list str) : bool := bool_decide (x ∈ l).

(** [list(set(l))]: the distinct elements of [l].  Python leaves the
    order of a set unspecified; each element is listed here at the
    place of its last occurrence. *)
Definition list_set (l : list str) : list str := remove_dups l.

End Py.
Export Py.

(** ** [PhonemeVariants] (src/core/phoneme_variants.py) *)

Module PhonemeVariants.

(** Accented letters of the tables, by code point. *)
Definition e_acute : str := [233%N].
Definition e_grave : str := [232%N].
Definition schwa   : str := [601%N].
Definition a_acute : str := [225%N].
Definition a_grave : str := [224%N].
Definition i_acute : str := [237%N].
Definition i_grave : str := [236%N].
Definition o_acute : str := [243%N].
Definition o_grave : str := [242%N].
Definition u_acute : str := [250%N].
Definition u_grave : str := [249%N].
Definition ae_lig  : str := [230%N].

Definition VOWEL_PATTERNS : list (str * list str) :=
  [ (py "e", [py "e"; e_acute; e_grave; schwa]);
    (py "a", [py "a"; a_acute; a_grave]);
    (py "i", [py "i"; i_acute; i_grave]);
    (py "o", [py "o"; o_acute; o_grave]);
    (py "u", [py "u"; u_acute; u_grave]) ].

Definition CONSONANT_PATTERNS : list (str * list str) :=
  [ (py "c", [py "c"; py "ch"; py "k"]);
    (py "g", [py "g"; py "ng"]);
    (py "ng", [py "ng"; py "n"]);
    (py "s", [py "s"; py "sh"; py "z"]);
    (py "j", [py "j"; py "dj"]);
    (py "y", [py "y"; py "i"]) ].

Definition WORD_SUBSTITUTIONS : list (str * list str) :=
  [ (py "next",
     List.map py ["next"; "neks"; "nekst"; "nex"; "nek"; "naxs"; "nek";
                  "necks"; "nexx"; "nekes"; "nexs"; "translate"; "teks"]%string);
    (py "slide",
     List.map py ["slide"; "slaid"; "slid"; "slyde"; "slaid"; "lite";
                  "slait"; "slyd"; "sled"; "slets"; "slet"; "slets"]%string);
    (py "back",
     [py "back"; py "bak"; py "bek"; py "b" ++ ae_lig ++ py "k"; py "bak";
      py "beck"; py "bakk"; py "bake"; py "bax"; py "bakc"; py "bag";
      py "beg"]);
    (py "previous",
     List.map py ["previous"; "previeus"; "privieus"; "previous"; "reviews";
                  "previus"; "preveus"; "previws"; "prevews"; "privius";
                  "priviws"]%string);
    (py "open",
     [py "open"; py "op" ++ e_grave ++ py "n"; py "op" ++ e_acute ++ py "n";
      py "opin"; py "open"; py "opeen"; py "openn"; py "opem"; py "opun";
      py "aup" ++ e_grave ++ py "n"; py "aup" ++ e_acute ++ py "n";
      py "aupin"; py "aupen"; py "openn"; py "opem"; py "opun";
      py "aup" ++ e_grave ++ py "n"; py "aup" ++ e_acute ++ py "n";
      py "aupin"; py "aupen"; py "aupenn"; py "aupem"; py "aupun"]);
    (py "close",
     List.map py ["close"; "klos"; "klous"; "kloz"; "cloze"; "clous"; "cloz";
                  "kloze"; "kloas"; "kloes"; "kloaz"]%string);
    (py "help",
     [py "help"; py "h" ++ e_grave ++ py "lp"; py "h" ++ e_acute ++ py "lp";
      py "help"; py "hep"]);
    (py "stop",
     [py "stop"; py "estop"; py "istop"; py "stap";
      py "st" ++ o_grave ++ py "p"; py "st" ++ o_acute ++ py "p";
      py "stopp"; py "stope"; py "stoup"; py "stob"; py "stob";
      py "stopp"; py "stope"; py "stoup"; py "stob"; py "stob";
      py "stopp"; py "stope"; py "stoup"; py "stob"; py "stob";
      py "stopp"; py "stope"; py "stoup"; py "stob"; py "stob";
      py "setop"]);
    (py "show",
     List.map py ["show"; "sho"; "sow"; "syow"; "shou"; "shoo"; "shouw";
                  "shoa"; "shoe"; "shouh"; "showw"]%string);
    (py "menu",
     [py "menu"; py "m" ++ e_grave ++ py "nu"; py "m" ++ e_acute ++ py "nu";
      py "meenu"; py "minu"; py "manu"; py "minu"; py "menuu"; py "menou";
      py "menue"; py "manou"; py "manue"; py "minou"; py "minue";
      py "manou"; py "manue"]) ].

(** Dictionary lookup [d[k]] / [k in d] on a literal table. *)
Fixpoint lookup_table (k : str) (d : list (str * list str)) : option (list str) :=
  match d with
  | [] => None
  | (k', v) :: d' => if str_eqb k' k then Some v else lookup_table k d'
  end.

(** The inner loop of [_generate_word_variants]:
    [for variant in variants_list: new_word = word.replace(original, variant);
     if new_word not in variants: variants.append(new_word)]. *)
Fixpoint apply_pattern (word original : str) (variants_list : list str)
    (variants : list str) : list str :=
  match variants_list with
  | [] => variants
  | variant :: rest =>
      let new_word := replace original variant word in
      apply_pattern word original rest
        (if mem new_word variants then variants else variants ++ [new_word])
  end.

(** One of the two outer loops: [for original, variants_list in
    PATTERNS.items(): if original in word: ...]. *)
Fixpoint apply_patterns (word : str) (patterns : list (str * list str))
    (variants : list str) : list str :=
  match patterns with
  | [] => variants
  | (original, variants_list) :: rest =>
      apply_patterns word rest
        (if contains original word
         then apply_pattern word original variants_list variants
         else variants)
  end.

Definition _generate_word_variants (word : str) : list str :=
  let variants := [word] in
  let variants := apply_patterns word VOWEL_PATTERNS variants in
  let variants := apply_patterns word CONSONANT_PATTERNS variants in
  list_set variants.

Definition word_variants_of (word : str) : list str :=
  match lookup_table word WORD_SUBSTITUTIONS with
  | Some l => l
  | None => _generate_word_variants word
  end.

(** [generate_variants(phrase)].  [None] stands for the [IndexError]
    raised by [word_variants[0]] in the final [else] branch when the
    phrase has no token at all. *)
Definition generate_variants (phrase : str) : option (list str) :=
  let words := split (lower phrase) in
  let word_variants := List.map word_variants_of words in
  match word_variants with
  | [] => None
  | [wv0] => Some (list_set (phrase :: wv0))
  | [wv0; wv1] =>
      Some (list_set
              (phrase ::
               flat_map (fun v1 =>
                 List.map (fun v2 => v1 ++ py " " ++ v2) wv1) wv0))
  | wv0 :: wv1 :: _ =>
      let rest := join (py " ") (List.skipn 2 words) in
      Some (list_set
              (phrase ::
               flat_map (fun v1 =>
                 List.map (fun v2 => v1 ++ py " " ++ v2 ++ py " " ++ rest) wv1)
                 wv0))
  end.

(** Last character test [v and v[-1] in 'tpskcng']. *)
Definition ends_in_dropped_consonant (v : str) : bool :=
  match last v with
  | Some c => contains [c] (py "tpskcng")
  | None => false
  end.

Definition javanese (variants : list str) : list str :=
  flat_map (fun v =>
    (if ends_in_dropped_consonant v then [List.removelast v] else [])
    ++ [replace (py "ng") (py "n") v]) variants.

Definition sundanese (variants : list str) : list str :=
  flat_map (fun v =>
    [replace (py "e") (py "i") v; replace (py "o") (py "u") v]) variants.

Definition betawi (variants : list str) : list str :=
  List.map (fun v =>
    join (py " ") (List.filter (fun w => Nat.ltb 2 (length w)) (split v)))
    variants.

(** [add_regional_variants(phrase, region)]; the [IndexError] of
    [generate_variants] propagates. *)
Definition add_regional_variants (phrase region : str) : option (list str) :=
  match generate_variants phrase with
  | None => None
  | Some variants =>
      let variants :=
        if mem region [py "javanese"; py "mixed"]
        then variants ++ javanese variants else variants in
      let variants :=
        if mem region [py "sundanese"; py "mixed"]
        then variants ++ sundanese variants else variants in
      let variants :=
        if mem region [py "betawi"; py "mixed"]
        then variants ++ betawi variants else variants in
      Some (list_set variants)
  end.

(** The dictionary [replacements] of [_to_phonetic], in its order:
    acute, grave and circumflex forms of e, a, i, o, u. *)
Definition replacements : list (str * str) :=
  [ ([233%N], py "e"); ([232%N], py "e"); ([234%N], py "e");
    ([225%N], py "a"); ([224%N], py "a"); ([226%N], py "a");
    ([237%N], py "i"); ([236%N], py "i"); ([238%N], py "i");
    ([243%N], py "o"); ([242%N], py "o"); ([244%N], py "o");
    ([250%N], py "u"); ([249%N], py "u"); ([251%N], py "u") ].

(** [_to_phonetic(word)]: lower case, then one [replace] per entry. *)
Definition _to_phonetic (word : str) : str :=
  fold_left (fun phonetic item => replace (fst item) (snd item) phonetic)
            replacements (lower word).

(** The regions [add_regional_variants] tests for. *)
Definition known_regions : list str :=
  [py "javanese"; py "sundanese"; py "betawi"; py "mixed"].

End PhonemeVariants.

(** ** [InputValidator] (src/utils/validators.py) *)

Module InputValidator.

Definition SAFE_COMMANDS : list str :=
  List.map py ["next"; "previous"; "stop"; "help"; "test";
               "open_slideshow"; "close_slideshow"; "noise";
               "popup_on"; "popup_off"; "caption_on"; "caption_off";
               "change_language"; "show_analytics"; "unknown"]%string.

(** The class [\w] of [re] on [str] patterns: alphanumeric characters
    and the underscore.  The classification is exact up to U+02AF
    (Basic Latin, Latin-1 Supplement, Latin Extended-A/B and IPA
    Extensions, which hold every character of the repository's tables);
    code points above that range are not classified and count as
    non-word characters here. *)
Definition is_word (c : char) : bool :=
  (within 48 57 c || within 65 90 c || within 97 122 c || N.eqb c 95
   || N.eqb c 170 || within 178 179 c || N.eqb c 181 || within 185 186 c
   || within 188 190 c || within 192 214 c || within 216 246 c
   || within 248 687 c)%bool.

Definition one_of (chars : str) (c : char) : bool :=
  existsb (N.eqb c) chars.

(** Characters kept by [re.sub(r"[^\w\s\-\.\,\!\?]", "", text)]. *)
Definition kept (c : char) : bool :=
  (is_word c || is_space c || one_of (py "-.,!?") c)%bool.

Definition sanitize_voice_input (text : str) : str :=
  match text with
  | [] => []
  | _ =>
      let text := strip (lower text) in
      let text := join (py " ") (split text) in
      List.filter kept text
  end.

Definition validate_command (command : str) : bool :=
  mem command SAFE_COMMANDS.

Definition backslash : str := [92%N].

(** [DANGEROUS_PATTERNS], each as the search it performs. *)
Definition DANGEROUS_PATTERNS : list (str -> bool) :=
  [ existsb (one_of (py ";&|`$(){}"));
    (fun text => (contains (py "../") text
                  || contains (py ".." ++ backslash) text)%bool);
    (fun text => (contains (py "<") text || contains (py ">") text)%bool);
    contains (py "--") ].

Definition is_dangerous (text : str) : bool :=
  match text with
  | [] => false
  | _ => existsb (fun pattern => pattern text) DANGEROUS_PATTERNS
  end.

Definition dangerous_keywords : list str :=
  List.map py ["exec"; "eval"; "system"; "import"; "subprocess";
               "os.system"; "shell"; "cmd"; "powershell"; "bash"]%string.

Definition check_injection_attempt (text : str) : bool :=
  let text_lower := lower text in
  existsb (fun keyword => contains keyword text_lower) dangerous_keywords.

(** The pair [(sanitized, error)] returned by [validate_and_sanitize]:
    exactly one component is not [None]. *)
Inductive validation :=
  | Sanitized (sanitized : str)
  | Refused (error : string).

Definition validate_and_sanitize (text : str) : validation :=
  match text with
  | [] => Refused "Invalid input"
  | _ =>
      if check_injection_attempt text
      then Refused "Potential injection attempt detected"
      else if is_dangerous text
      then Refused "Dangerous characters detected"
      else
        let sanitized := sanitize_voice_input text in
        if Nat.ltb (length sanitized) 2
        then Refused "Input too short or invalid"
        else if Nat.ltb 200 (length sanitized)
        then Refused "Input too long"
        else Sanitized sanitized
  end.

Definition safe_dirs : list str := [py "logs"; py "data"; py "cache"; py "."].

(** [validate_file_path(filepath)] *)
Definition validate_file_path (filepath : str) : bool :=
  if (contains (py "..") filepath || startswith (py "/") filepath)%bool
  then false
  else existsb (fun d => startswith d filepath) safe_dirs.

End InputValidator.

(** ** [AdaptiveMatcher] (src/utils/matcher.py) *)

Module AdaptiveMatcher.

Local Open Scope Q_scope.

Definition Qltb (x y : Q) : bool := negb (Qle_bool y x).

(** Python's two-argument [max] and [min]: the first argument is kept
    unless the second is strictly better. *)
Definition py_max (a b : Q) : Q := if Qltb a b then b else a.
Definition py_min (a b : Q) : Q := if Qltb b a then b else a.

(** [collections.deque(maxlen=10).append]: the oldest entry leaves on
    the left when the window is full. *)
Definition deque_append (d : list Q) (x : Q) : list Q :=
  let d' := d ++ [x] in
  if Nat.ltb 10 (length d') then List.tl d' else d'.

Record Pronunciation := {
  attempts : Z;
  best_score : Q;
  last_attempt : Q
}.

Record t := {
  base_threshold : Q;
  current_threshold : Q;
  recent_failures : list Q;
  recent_successes : list Q;
  command_frequency : gmap (list N) Z;
  user_pronunciations : gmap (list N) Pronunciation
}.

Definition init (base_threshold : Q) : t :=
  {| base_threshold := base_threshold;
     current_threshold := base_threshold;
     recent_failures := [];
     recent_successes := [];
     command_frequency := ∅;
     user_pronunciations := ∅ |}.

Definition set_current_threshold (m : t) (x : Q) : t :=
  {| base_threshold := base_threshold m;
     current_threshold := x;
     recent_failures := recent_failures m;
     recent_successes := recent_successes m;
     command_frequency := command_frequency m;
     user_pronunciations := user_pronunciations m |}.

Definition py_sum (l : list Q) : Q := fold_left Qplus l 0.

Definition len (l : list Q) : Q := inject_Z (Z.of_nat (length l)).

Definition failure_rate (m : t) : Q :=
  match recent_failures m with
  | [] => 0
  | _ => len (recent_failures m) / 10
  end.

(** [sum(self.recent_successes) / len(self.recent_successes)], taken
    without rounding.  The float sum of the code rounds after every
    addition and its quotient is rounded once more; on whole scores the
    sum is exact and the rounded quotient exceeds 12 exactly when the
    quotient does.  Statements that depend on the value of the average
    are made for such scores. *)
Definition recent_avg_score (m : t) : Q :=
  match recent_successes m with
  | [] => 10
  | _ => py_sum (recent_successes m) / len (recent_successes m)
  end.

(** The local [adjustment] after both factors. *)
Definition adjustment (m : t) : Q :=
  let adjustment := if Qltb (1#2) (failure_rate m) then - (1#2) else 0 in
  if Qltb 12 (recent_avg_score m) then adjustment + (1#2) else adjustment.

(** The local [reason]; [None] when the name was never bound (high
    failure rate with a base threshold other than 6). *)
Definition reason (m : t) : option string :=
  if Qltb (1#2) (failure_rate m)
  then if Qeq_bool (base_threshold m) 6
       then Some "High failure rate detected (tolerance mode)"%string
       else None
  else Some "Normal operation"%string.

(** [adjust_threshold()]: the new object state and the returned pair.
    [current_threshold] is assigned before the [return]; a [None]
    result stands for the [UnboundLocalError] raised when [reason] has
    no value. *)
Definition adjust_threshold (m : t) : t * option (Q * string) :=
  let base := base_threshold m in
  let threshold := py_max 3 (py_min 8 (base + adjustment m)) in
  let m' := set_current_threshold m threshold in
  (m', match reason m with
       | Some r => Some (current_threshold m', r)
       | None => None
       end).

Definition record_success (m : t) (command : str) (score : Q) : t :=
  {| base_threshold := base_threshold m;
     current_threshold := current_threshold m;
     recent_failures := recent_failures m;
     recent_successes := deque_append (recent_successes m) score;
     command_frequency :=
       <[command := (default 0%Z (command_frequency m !! command) + 1)%Z]>
         (command_frequency m);
     user_pronunciations := user_pronunciations m |}.

(** [key = text.lower().strip()] *)
Definition pronunciation_key (text : str) : str := strip (lower text).

(** [record_failure(text, best_score)]; [now] is the reading of
    [time.time()] stored in a newly created record. *)
Definition record_failure (m : t) (now : Q) (text : str) (score : Q) : t :=
  let key := pronunciation_key text in
  let entry :=
    match user_pronunciations m !! key with
    | Some e => e
    | None => {| attempts := 0; best_score := score; last_attempt := now |}
    end in
  {| base_threshold := base_threshold m;
     current_threshold := current_threshold m;
     recent_failures := deque_append (recent_failures m) score;
     recent_successes := recent_successes m;
     command_frequency := command_frequency m;
     user_pronunciations :=
       <[key := {| attempts := (attempts entry + 1)%Z;
                   best_score := py_max (best_score entry) score;
                   last_attempt := last_attempt entry |}]>
         (user_pronunciations m) |}.

(** [get_adaptive_threshold(command)]; the optional [score] argument is
    never read.  An exception of [adjust_threshold] propagates. *)
Definition get_adaptive_threshold (m : t) (command : option str)
    : t * option Q :=
  let '(m', r) := adjust_threshold m in
  (m', match r with
       | None => None
       | Some (threshold, _) =>
           Some
             match command with
             | Some ((_ :: _) as c) =>
                 match command_frequency m' !! c with
                 | Some freq =>
                     if (10 <? freq)%Z
                     then py_max 3 (threshold - (1#2))
                     else threshold
                 | None => threshold
                 end
             | _ => threshold
             end
       end).

Definition should_ask_confirmation (score : Q) : bool :=
  (Qle_bool 8 score && Qltb score 12)%bool.

(** *** Sequences of calls on one tracker *)

Inductive call :=
  | RecordSuccess (command : str) (score : Q)
  | RecordFailure (now : Q) (text : str) (score : Q)
  | AdjustThreshold
  | GetAdaptiveThreshold (command : option str).

(** What a call hands back: nothing, a threshold, or an exception. *)
Inductive reply :=
  | NoValue
  | Threshold (x : Q)
  | Raised.

Definition perform (m : t) (c : call) : t * reply :=
  match c with
  | RecordSuccess command score => (record_success m command score, NoValue)
  | RecordFailure now text score => (record_failure m now text score, NoValue)
  | AdjustThreshold =>
      let '(m', r) := adjust_threshold m in
      (m', match r with Some (x, _) => Threshold x | None => Raised end)
  | GetAdaptiveThreshold command =>
      let '(m', r) := get_adaptive_threshold m command in
      (m', match r with Some x => Threshold x | None => Raised end)
  end.

Fixpoint run (m : t) (calls : list call) : t * list reply :=
  match calls with
  | [] => (m, [])
  | c :: calls' =>
      let '(m1, r) := perform m c in
      let '(m2, rs) := run m1 calls' in
      (m2, r :: rs)
  end.

(** A recorded outcome of a detection, and the tracker after a history
    of outcomes. *)
Inductive outcome :=
  | Success (command : str) (score : Q)
  | Failure (now : Q) (text : str) (score : Q).

Definition record (m : t) (o : outcome) : t :=
  match o with
  | Success command score => record_success m command score
  | Failure now text score => record_failure m now text score
  end.

Definition replay (base : Q) (history : list outcome) : t :=
  fold_left record history (init base).




(** The scores recorded under one pronunciation key by a run of
    [record_failure] calls, oldest first. *)
Definition scores_for (key : str) (calls : list (Q * str * Q)) : list Q :=
  List.map snd
    (List.filter (fun c => str_eqb (pronunciation_key (snd (fst c))) key) calls).

Definition record_failures (m : t) (calls : list (Q * str * Q)) : t :=
  fold_left (fun m c => record_failure m (fst (fst c)) (snd (fst c)) (snd c))
            calls m.




(** *** [learn_common_pronunciation] *)

(** The dictionary [learn_common_pronunciation] returns; its [reason]
    text quotes the attempt count. *)
Record Learned := {
  learned_text : str;
  learned_command : str;
  should_add : bool;
  attempted : Z
}.

(** [learn_common_pronunciation(text, command)]; [None] when the
    utterance is unknown or not yet a valid variant. *)
Definition learn_common_pronunciation (m : t) (text command : str)
    : option Learned :=
  match user_pronunciations m !! pronunciation_key text with
  | Some info =>
      if ((3 <=? attempts info)%Z && Qle_bool 5 (best_score info))%bool
      then Some {| learned_text := text; learned_command := command;
                   should_add := true; attempted := attempts info |}
      else None
  | None => None
  end.

(** The scores of the successes, and of the failures, of a history,
    oldest first. *)
Definition success_scores (history : list outcome) : list Q :=
  flat_map (fun o => match o with Success _ s => [s] | Failure _ _ _ => [] end)
           history.

Definition failure_scores (history : list outcome) : list Q :=
  flat_map (fun o => match o with Failure _ _ s => [s] | Success _ _ => [] end)
           history.

(** How many successes of a history were recorded for one command. *)
Definition successes_of (c : str) (history : list outcome) : nat :=
  length (List.filter (fun o => match o with
                                | Success c' _ => str_eqb c' c
                                | Failure _ _ _ => false
                                end) history).

(** The last [n] entries of a list of scores. *)
Definition last_entries (n : nat) (l : list Q) : list Q :=
  skipn (length l - n) l.

End AdaptiveMatcher.

(** ** [SmartVoiceDetector] (src/core/voice_detector.py) *)

Module SmartVoiceDetector.

Import PhonemeVariants InputValidator.
Local Open Scope Q_scope.

Record CommandData := {
  phrases : list str;
  weight : Z;
  description : str
}.

(** One entry of [results]. *)
Record Candidate := {
  command : str;
  phrase : str;
  score : Q;
  max_score : Z;
  cand_description : str
}.

(** One record appended to [unrecognized_commands.json]. *)
Record Unrecognized := {
  timestamp : Q;
  user_input : str;
  closest_match : str;
  confidence : Q;
  suggestions : list str
}.

(** The detector object together with the file it appends to, as the
    list of records [json.load] reads from it.  [sink_writable = false]
    stands for a failure to write inside [_save_unrecognized_command],
    which the method swallows. *)
Record t := {
  fuzzy_available : bool;
  adaptive_matcher : AdaptiveMatcher.t;
  wake_words : list (str * CommandData);
  last_execution_time : Q;
  cooldown_seconds : Q;
  unrecognized_commands : list Unrecognized;
  sink_writable : bool
}.

(** [_expand_with_variants(phrases)]: the loop body adds the phrase
    itself, then every generated and every regional variant of at least
    two characters.  [None] is the [IndexError] of the generator. *)
Fixpoint expand_loop (phrases expanded : list str) : option (list str) :=
  match phrases with
  | [] => Some expanded
  | phrase :: rest =>
      match generate_variants phrase,
            add_regional_variants phrase (py "mixed") with
      | Some variants, Some regional =>
          expand_loop rest
            (expanded ++ [phrase]
               ++ List.filter (fun variant => Nat.leb 2 (length variant)) variants
               ++ List.filter (fun variant => Nat.leb 2 (length variant)) regional)
      | _, _ => None
      end
  end.

Definition _expand_with_variants (phrases : list str) : option (list str) :=
  match expand_loop phrases [] with
  | Some expanded => Some (list_set expanded)
  | None => None
  end.

(** The phrase lists written in [__init__]. *)
Definition next_seeds : list str :=
  List.map py ["next slide"; "slide next"; "lanjut slide"; "slide lanjut"]%string.

Definition previous_seeds : list str :=
  List.map py ["back slide"; "slide back"; "mundur slide"; "slide mundur";
               "previous slide"; "slide previous"]%string.

Definition open_slideshow_phrases : list str :=
  List.map py ["open slide show"; "slide show open"; "start slide show";
               "slide show start"; "mulai slide show"; "slide show mulai";
               "buka slide show"; "slide show buka"; "f5"; "mulai presentasi";
               "presentasi mulai"; "buka presentasi"; "presentasi buka";
               "start presentation"; "presentation start"; "open slide";
               "open side show"; "open slideshows"]%string.

Definition close_slideshow_phrases : list str :=
  List.map py ["close slide show"; "slide show close"; "quit slide show";
               "slide show quit"; "keluar slide show"; "slide show keluar";
               "tutup slide show"; "slide show tutup"; "stop slide show";
               "slide show stop"; "akhiri presentasi"; "presentasi akhiri";
               "tutup presentasi"; "presentasi tutup"; "end presentation";
               "presentation end"; "exit slideshow"; "slideshow exit";
               "close slide"; "close side show"; "close slideshows"]%string.

Definition help_phrases : list str :=
  List.map py ["help menu"; "menu help"; "bantuan menu"; "menu bantuan";
               "helm menu"; "hal menu"; "helmmu"; "menu bantu";
               "menu bantuanmu"; "menu bantuin"; "held menu"; "hell menu";
               "help me menu"]%string.

Definition stop_phrases : list str :=
  List.map py ["stop program"; "program stop"; "berhenti program";
               "program berhenti"; "stop"; "berhenti"; "stok program";
               "setiap program"; "top program"; "stop programnya";
               "stop progran"]%string.

Definition test_phrases : list str :=
  List.map py ["test mic"; "mic test"; "test microphone"; "microphone test";
               "test audio"; "audio test"]%string.

Definition noise_phrases : list str :=
  List.map py ["toggle noise"; "noise toggle"; "noise reduction";
               "reduction noise"; "noise on"; "noise off"]%string.

Definition popup_on_phrases : list str :=
  List.map py ["popup on"; "show popup"; "popup show"; "enable popup";
               "popup enable"; "turn on popup"; "popup turn on"]%string.

Definition popup_off_phrases : list str :=
  List.map py ["popup off"; "hide popup"; "popup hide"; "disable popup";
               "popup disable"; "turn off popup"; "popup turn off"]%string.

Definition caption_on_phrases : list str :=
  List.map py ["caption on"; "start caption"; "caption start";
               "enable caption"; "caption enable"; "turn on caption";
               "caption turn on"; "live caption on"; "caption live on"]%string.

Definition caption_off_phrases : list str :=
  List.map py ["caption off"; "stop caption"; "caption stop";
               "disable caption"; "caption disable"; "turn off caption";
               "caption turn off"; "live caption off"; "caption live off"]%string.

Definition change_language_phrases : list str :=
  List.map py ["change language"; "language change"; "switch language";
               "language switch"; "ganti bahasa"; "bahasa ganti"]%string.

Definition show_analytics_phrases : list str :=
  List.map py ["show analytics"; "analytics show"; "display analytics";
               "analytics display"; "session stats"; "stats session"]%string.

Definition entry (name : string) (phrases : list str) (weight : Z)
    (description : string) : str * CommandData :=
  (py name, {| phrases := phrases; weight := weight;
               description := py description |}).

(** The dictionary [self.wake_words] as [__init__] builds it, in
    insertion order; only the first two commands go through
    [_expand_with_variants]. *)
Definition build_wake_words : option (list (str * CommandData)) :=
  match _expand_with_variants next_seeds,
        _expand_with_variants previous_seeds with
  | Some next_phrases, Some previous_phrases =>
      Some
        [ entry "next" next_phrases 10 "Slide maju";
          entry "previous" previous_phrases 10 "Slide mundur";
          entry "open_slideshow" open_slideshow_phrases 18 "Buka slideshow (F5)";
          entry "close_slideshow" close_slideshow_phrases 18 "Tutup slideshow (ESC)";
          entry "help" help_phrases 8 "Tampilkan bantuan";
          entry "stop" stop_phrases 15 "Stop program";
          entry "test" test_phrases 8 "Test microphone";
          entry "noise" noise_phrases 8 "Toggle noise reduction";
          entry "popup_on" popup_on_phrases 8 "Tampilkan popup bantu";
          entry "popup_off" popup_off_phrases 8 "Sembunyikan popup bantu";
          entry "caption_on" caption_on_phrases 8
            "Tampilkan teks caption dan mulai live captioning real-time";
          entry "caption_off" caption_off_phrases 12
            "Teks caption berhenti dan sembunyikan live captioning real-time";
          entry "change_language" change_language_phrases 7
            "Change caption language";
          entry "show_analytics" show_analytics_phrases 7
            "Show session analytics" ]
  | _, _ => None
  end.

(** [SmartVoiceDetector()]: [fuzzy] tells whether the optional
    libraries could be imported; [sink] is the content of the
    unrecognised-commands file at that moment. *)
Definition init (fuzzy : bool) (sink : list Unrecognized) : option t :=
  match build_wake_words with
  | Some catalog =>
      Some {| fuzzy_available := fuzzy;
              adaptive_matcher := AdaptiveMatcher.init 6;
              wake_words := catalog;
              last_execution_time := 0;
              cooldown_seconds := 2;
              unrecognized_commands := sink;
              sink_writable := true |}
  | None => None
  end.

(** A detector as [__init__] leaves it, but over a given catalog, no
    fuzzy library and an empty file: the catalogs of the spec's
    scenarios are loaded this way. *)
Definition with_catalog (catalog : list (str * CommandData)) : t :=
  {| fuzzy_available := false;
     adaptive_matcher := AdaptiveMatcher.init 6;
     wake_words := catalog;
     last_execution_time := 0;
     cooldown_seconds := 2;
     unrecognized_commands := [];
     sink_writable := true |}.

(** *** [detect] *)

Section Detect.

(** [fuzz.ratio(a, b)] of the optional [fuzzywuzzy] package: a whole
    similarity between 0 and 100.  [None] stands for any exception,
    which the bare [except: pass] around the call discards. *)
Variable fuzz_ratio : str -> str -> option Z.

(** The words of [phrase] that occur in the text, with repetitions:
    [[w for w in phrase_words if w in text_words]]. *)
Definition matching_words (text_lower phrase : str) : list str :=
  List.filter (fun w => mem w (split text_lower)) (split phrase).

(** The [if / elif / else] ladder of the scoring loop. *)
Definition base_score (text_lower phrase : str) (weight : Z) : Q :=
  if str_eqb phrase text_lower then inject_Z (weight + 20)
  else if contains phrase text_lower then inject_Z (weight + 10)
  else
    let n := length (matching_words text_lower phrase) in
    if Nat.leb 2 n then inject_Z (weight + Z.of_nat n * 3)
    else if (Nat.eqb n 1 && Nat.leb (length (split phrase)) 2)%bool
    then inject_Z (weight + 1)
    else 0.

(** The score of one phrase, with the fuzzy step for a score still 0. *)
Definition phrase_score (fuzzy : bool) (text_lower phrase : str)
    (weight : Z) : Q :=
  let score := base_score text_lower phrase weight in
  if (Qeq_bool score 0 && fuzzy)%bool then
    match fuzz_ratio text_lower phrase with
    | Some similarity =>
        if (85 <=? similarity)%Z
        then inject_Z weight + inject_Z similarity / 20
        else score
    | None => score
    end
  else score.

(** The two nested loops over [self.wake_words]: the list [results]
    before sorting. *)
Definition scan_command (fuzzy : bool) (text_lower : str)
    (item : str * CommandData) : list Candidate :=
  let '(cmd, data) := item in
  flat_map (fun phrase =>
    let score := phrase_score fuzzy text_lower phrase (weight data) in
    if AdaptiveMatcher.Qltb 0 score
    then [ {| command := cmd; phrase := phrase; score := score;
              max_score := (weight data + 20)%Z;
              cand_description := description data |} ]
    else []) (phrases data).

Definition scan (d : t) (text_lower : str) : list Candidate :=
  flat_map (scan_command (fuzzy_available d) text_lower) (wake_words d).

(** [len(set(phrase.split()) & set(text_lower.split()))] *)
Definition shared_words (text_lower phrase : str) : nat :=
  length (List.filter (fun w => mem w (list_set (split text_lower)))
                      (list_set (split phrase))).

Definition phrase_match_quality (text_lower phrase : str) : Q :=
  inject_Z (Z.of_nat (shared_words text_lower phrase))
  / inject_Z (Z.of_nat (Nat.max (length (list_set (split phrase))) 1)).

Definition phrase_length (phrase : str) : Z :=
  Z.of_nat (length (split phrase)).

(** [sort_key(result)]: the tuple
    [(-score, -phrase_match_quality, -phrase_length)]. *)
Definition sort_key (text_lower : str) (result : Candidate) : Q * Q * Z :=
  (- score result,
   - phrase_match_quality text_lower (phrase result),
   (- phrase_length (phrase result))%Z).

(** Python's [<] on such tuples: the first differing component
    decides. *)
Definition key_lt (a b : Q * Q * Z) : bool :=
  let '(a1, a2, a3) := a in
  let '(b1, b2, b3) := b in
  if negb (Qeq_bool a1 b1) then AdaptiveMatcher.Qltb a1 b1
  else if negb (Qeq_bool a2 b2) then AdaptiveMatcher.Qltb a2 b2
  else (a3 <? b3)%Z.

(** [results.sort(key=sort_key)]: a stable sort, here by insertion;
    an element stays in front of the later elements of equal key. *)
Fixpoint insert_by (text_lower : str) (x : Candidate) (l : list Candidate)
    : list Candidate :=
  match l with
  | [] => [x]
  | y :: l' =>
      if key_lt (sort_key text_lower y) (sort_key text_lower x)
      then y :: insert_by text_lower x l'
      else x :: l
  end.

Definition sort (text_lower : str) (results : list Candidate)
    : list Candidate :=
  foldr (insert_by text_lower) [] results.

(** [_save_unrecognized_command(user_input, closest_match, confidence,
    suggestion)]: one record is appended to the records read from the
    file and the file is written back, unless writing fails, in which
    case nothing changes.  [unrecognized_commands] holds the records
    the method reads: none when the file is missing or cannot be
    parsed, in which case the code starts again from an empty list.
    [round(confidence, 2)] is the identity on the scores the detector
    produces (whole numbers or multiples of 1/20). *)
Definition _save_unrecognized_command (d : t) (now : Q) (user_input : str)
    (closest : option str) (conf : Q) (suggestion : option str) : t :=
  if sink_writable d then
    {| fuzzy_available := fuzzy_available d;
       adaptive_matcher := adaptive_matcher d;
       wake_words := wake_words d;
       last_execution_time := last_execution_time d;
       cooldown_seconds := cooldown_seconds d;
       unrecognized_commands :=
         unrecognized_commands d ++
         [ {| timestamp := now;
              user_input := user_input;
              closest_match :=
                match closest with
                | Some ((_ :: _) as c) => c
                | _ => py "none"
                end;
              confidence := conf;
              suggestions :=
                match suggestion with
                | Some ((_ :: _) as s) => [s]
                | _ => []
                end |} ];
       sink_writable := sink_writable d |}
  else d.

Definition set_matcher (d : t) (m : AdaptiveMatcher.t) : t :=
  {| fuzzy_available := fuzzy_available d;
     adaptive_matcher := m;
     wake_words := wake_words d;
     last_execution_time := last_execution_time d;
     cooldown_seconds := cooldown_seconds d;
     unrecognized_commands := unrecognized_commands d;
     sink_writable := sink_writable d |}.

Definition set_last_execution_time (d : t) (x : Q) : t :=
  {| fuzzy_available := fuzzy_available d;
     adaptive_matcher := adaptive_matcher d;
     wake_words := wake_words d;
     last_execution_time := x;
     cooldown_seconds := cooldown_seconds d;
     unrecognized_commands := unrecognized_commands d;
     sink_writable := sink_writable d |}.

(** The [return] statement a call of [detect] ends in. *)
Inductive Outcome :=
  | ValidationRejected (error : string)
      (** line 140, after "[WARN] Input validation error" *)
  | CooldownActive
      (** line 148, after "[WAIT] Cooldown aktif" *)
  | TooShort
      (** line 151 *)
  | NoMatch (user_input : str)
      (** line 226: no candidate at all *)
  | CommandRejected (best_match : Candidate)
      (** line 241, after "[WARN] Command validation failed" *)
  | Matched (best_match : Candidate)
      (** line 253 *)
  | LowConfidence (best_match : Candidate) (user_input : str).
      (** line 273 *)

(** The value handed back to the caller. *)
Inductive Returned :=
  | PyNone
  | Match (best_match : Candidate)
  | Unknown (score : option Q) (suggestion : option str) (user_input : str).

Definition returned (o : Outcome) : Returned :=
  match o with
  | ValidationRejected _ | CooldownActive | TooShort | CommandRejected _ =>
      PyNone
  | NoMatch user_input => Unknown None None user_input
  | Matched best_match => Match best_match
  | LowConfidence best_match user_input =>
      Unknown (Some (score best_match))
              (Some (cand_description best_match)) user_input
  end.

(** The literal [min_score_threshold = 8.0] of [detect]. *)
Definition min_score_threshold : Q := 8.

(** The part of [detect] after the cooldown check, on the sanitized
    text. *)
Definition decide_command (d : t) (current_time : Q) (text : str)
    : Outcome * t :=
  if (match text with [] => true | _ => Nat.ltb (length (strip text)) 2 end)
  then (TooShort, d)
  else
    let text_lower := strip (lower text) in
    match sort text_lower (scan d text_lower) with
    | [] =>
        (NoMatch text_lower,
         _save_unrecognized_command d current_time text_lower None 0 None)
    | best_match :: _ =>
        if Qle_bool min_score_threshold (score best_match) then
          if negb (validate_command (command best_match))
          then (CommandRejected best_match, d)
          else
            (Matched best_match,
             set_matcher (set_last_execution_time d current_time)
               (AdaptiveMatcher.record_success (adaptive_matcher d)
                  (command best_match) (score best_match)))
        else
          let d1 :=
            _save_unrecognized_command d current_time text_lower
              (Some (command best_match)) (score best_match)
              (Some (cand_description best_match)) in
          (LowConfidence best_match text_lower,
           set_matcher d1
             (AdaptiveMatcher.record_failure (adaptive_matcher d1)
                current_time text (score best_match)))
    end.

(** [detect(text)] called when the clock reads [now]: the validator
    runs first, the cooldown check second.  The call has no waits, so
    the later clock readings inside it (new pronunciation record, file
    record) are identified with [now]. *)
Definition detect (d : t) (now : Q) (text : str) : Outcome * t :=
  match validate_and_sanitize text with
  | Refused error => (ValidationRejected error, d)
  | Sanitized text =>
      let current_time := now in
      if AdaptiveMatcher.Qltb (current_time - last_execution_time d)
                              (cooldown_seconds d)
      then (CooldownActive, d)
      else decide_command d current_time text
  end.

(** The detector over another unrecognised-commands file. *)
Definition with_sink (d : t) (sink : list Unrecognized) (writable : bool)
    : t :=
  {| fuzzy_available := fuzzy_available d;
     adaptive_matcher := adaptive_matcher d;
     wake_words := wake_words d;
     last_execution_time := last_execution_time d;
     cooldown_seconds := cooldown_seconds d;
     unrecognized_commands := sink;
     sink_writable := writable |}.

(** Whether a call handed back the dictionary of an unknown command. *)
Definition is_unknown (o : Outcome) : bool :=
  match o with
  | NoMatch _ | LowConfidence _ _ => true
  | _ => false
  end.

(** The candidate the scan builds for a phrase equal to the text. *)
Definition exact_candidate (c : str) (data : CommandData) (p : str)
    : Candidate :=
  {| command := c; phrase := p; score := inject_Z (weight data + 20);
     max_score := (weight data + 20)%Z;
     cand_description := description data |}.

(** What a call that reaches [decide_command] ends in, exit by exit:
    the conditions that led there and the detector it leaves. *)
Definition exit_of (d : t) (now : Q) (s : str) (o : Outcome) (d' : t)
    : Prop :=
  let text_lower := strip (lower s) in
  match o with
  | ValidationRejected _ | CooldownActive => False
  | TooShort => d' = d
  | NoMatch u =>
      u = text_lower /\ scan d text_lower = [] /\
      d' = _save_unrecognized_command d now text_lower None 0 None
  | CommandRejected best =>
      d' = d /\
      (exists rest, sort text_lower (scan d text_lower) = best :: rest) /\
      8 <= score best /\ validate_command (command best) = false
  | Matched best =>
      (exists rest, sort text_lower (scan d text_lower) = best :: rest) /\
      8 <= score best /\ validate_command (command best) = true /\
      d' = set_matcher (set_last_execution_time d now)
             (AdaptiveMatcher.record_success (adaptive_matcher d)
                (command best) (score best))
  | LowConfidence best u =>
      u = text_lower /\
      (exists rest, sort text_lower (scan d text_lower) = best :: rest) /\
      score best < 8 /\
      d' = let d1 := _save_unrecognized_command d now text_lower
                       (Some (command best)) (score best)
                       (Some (cand_description best)) in
           set_matcher d1
             (AdaptiveMatcher.record_failure (adaptive_matcher d1) now s
                (score best))
  end.

End Detect.

End SmartVoiceDetector.

(** ** [AccentTrainingMode._save_training] (src/utils/accent_training.py) *)

Module AccentTrainingMode.

Import SmartVoiceDetector.

Definition CORE_COMMANDS : list str :=
  List.map py ["next slide"; "back slide"; "open slide show";
               "close slide show"; "help menu"; "stop program"]%string.

(** [cmd_data['description'].lower() in command.lower() or
     command.lower() in cmd_data['description'].lower()] *)
Definition matching_command (command : str) (data : CommandData) : bool :=
  (contains (lower (description data)) (lower command)
   || contains (lower command) (lower (description data)))%bool.

(** [cmd_data['phrases'].extend(variant_texts)] on the matching
    commands. *)
Definition learn (command : str) (variant_texts : list str)
    (item : str * CommandData) : str * CommandData :=
  let '(cmd_name, cmd_data) := item in
  if matching_command command cmd_data
  then (cmd_name,
        {| phrases := phrases cmd_data ++ variant_texts;
           weight := weight cmd_data;
           description := description cmd_data |})
  else item.

(** The loop of [_save_training] that adds the recorded texts to the
    detector's phrase lists; [user_pronunciations] maps each trained
    command to the texts heard for it, as the recognizer returned
    them. *)
Definition _save_training (detector : SmartVoiceDetector.t)
    (user_pronunciations : list (str * list str)) : SmartVoiceDetector.t :=
  {| fuzzy_available := fuzzy_available detector;
     adaptive_matcher := adaptive_matcher detector;
     wake_words :=
       fold_left (fun catalog '(command, variant_texts) =>
                    List.map (learn command variant_texts) catalog)
                 user_pronunciations (wake_words detector);
     last_execution_time := last_execution_time detector;
     cooldown_seconds := cooldown_seconds detector;
     unrecognized_commands := unrecognized_commands detector;
     sink_writable := sink_writable detector |}.

End AccentTrainingMode.

(** ** Predicates of the statements *)

Module Predicates.

Local Open Scope Q_scope.

(** The invariant kept by every call on a default tracker. *)
Definition clamped (m : AdaptiveMatcher.t) : Prop :=
  AdaptiveMatcher.base_threshold m = 6 /\
  3 <= AdaptiveMatcher.current_threshold m <= 8.

Definition reply_ok (r : AdaptiveMatcher.reply) : Prop :=
  match r with
  | AdaptiveMatcher.NoValue => True
  | AdaptiveMatcher.Threshold x => 3 <= x <= 8
  | AdaptiveMatcher.Raised => False
  end.

(** What the record stored under a key says about the scores recorded
    under that key so far: their number, and their maximum. *)
Definition tracks (entry : option AdaptiveMatcher.Pronunciation)
    (scores : list Q) : Prop :=
  match entry with
  | None => scores = []
  | Some r =>
      AdaptiveMatcher.attempts r = Z.of_nat (length scores) /\
      In (AdaptiveMatcher.best_score r) scores /\
      Forall (fun s => s <= AdaptiveMatcher.best_score r) scores
  end.

(** Text made of whitespace only; the empty text is one. *)
Definition blank (text : str) : Prop := Forall (fun c => is_space c = true) text.

(** A pattern that starts with a visible character. *)
Definition visible_start (pattern : str) : bool :=
  match pattern with
  | a :: _ => negb (is_space a)
  | [] => false
  end.

(** The order [key_lt] decides. *)
Definition key_less (a b : Q * Q * Z) : Prop :=
  a.1.1 < b.1.1 \/
  (a.1.1 == b.1.1 /\
   (a.1.2 < b.1.2 \/ (a.1.2 == b.1.2 /\ (a.2 < b.2)%Z))).

(** [a] is not after [b]. *)
Definition key_leq (a b : Q * Q * Z) : Prop := ~ key_less b a.

Definition ranked_before (text_lower : str)
    (x y : SmartVoiceDetector.Candidate) : Prop :=
  key_leq (SmartVoiceDetector.sort_key text_lower x)
          (SmartVoiceDetector.sort_key text_lower y).

(** One catalog entry after training: same name, weight and
    description, the old phrases first, then texts of the session. *)
Definition extended (session : list (str * list str))
    (old new : str * SmartVoiceDetector.CommandData) : Prop :=
  fst new = fst old /\
  SmartVoiceDetector.weight (snd new) = SmartVoiceDetector.weight (snd old) /\
  SmartVoiceDetector.description (snd new)
    = SmartVoiceDetector.description (snd old) /\
  exists extra,
    SmartVoiceDetector.phrases (snd new)
      = SmartVoiceDetector.phrases (snd old) ++ extra /\
    forall t, t ∈ extra ->
      exists command texts, (command, texts) ∈ session /\ t ∈ texts.

(** The three regional steps of [add_regional_variants], each taken or
    not. *)
Definition steps (j s b : bool) (variants : list str) : list str :=
  let variants :=
    if j then variants ++ PhonemeVariants.javanese variants else variants in
  let variants :=
    if s then variants ++ PhonemeVariants.sundanese variants else variants in
  if b then variants ++ PhonemeVariants.betawi variants else variants.

(** [s.replace(a, b)] for single characters, on one character. *)
Definition swap_char (a b c : char) : char := if N.eqb a c then b else c.

(** [replacements] of [_to_phonetic] as pairs of characters, and the
    effect of [_to_phonetic] on one character. *)
Definition char_replacements : list (char * char) :=
  [ (233, 101); (232, 101); (234, 101); (225, 97); (224, 97); (226, 97);
    (237, 105); (236, 105); (238, 105); (243, 111); (242, 111); (244, 111);
    (250, 117); (249, 117); (251, 117) ]%N.

Definition to_phonetic_char (c : char) : char :=
  fold_left (fun c item => swap_char (fst item) (snd item) c)
            char_replacements (lower_char c).






End Predicates.

(** ** Scenario catalogs and the statements under test *)

Module Scenarios.

Import SmartVoiceDetector InputValidator.
Local Open Scope Q_scope.

(** No fuzzy package: every call of [fuzz.ratio] fails. *)
Definition no_fuzz : str -> str -> option Z := fun _ _ => None.

(** Scenario A of the spec: one command [next] of weight 10 with the
    phrase "next slide". *)
Definition scenario_A : SmartVoiceDetector.t :=
  with_catalog [entry "next" [py "next slide"] 10 "Slide maju"].

(** The same catalog with the weight lowered to 5. *)
Definition low_weight : SmartVoiceDetector.t :=
  with_catalog [entry "next" [py "next slide"] 5 "Slide maju"].

(** Two commands with the weights 18 and 7 of the shipped catalog; a
    phrase of the first is a substring of a phrase of the second. *)
Definition shadowed : SmartVoiceDetector.t :=
  with_catalog
    [ entry "open_slideshow" [py "open slide"] 18 "Buka slideshow (F5)";
      entry "show_analytics" [py "open slide analytics"] 7
        "Show session analytics" ].

(** A phrase stored with capital letters. *)
Definition capitalised : SmartVoiceDetector.t :=
  with_catalog [entry "stop" [py "Stop Program"] 15 "Stop program"].

(** The one candidate of "next page" on [low_weight]. *)
Definition next_page_candidate : Candidate :=
  {| command := py "next"; phrase := py "next slide"; score := inject_Z 6;
     max_score := 25; cand_description := py "Slide maju" |}.


(** The detector of scenario A after "next slide" was accepted at
    time 100. *)
Definition after_next_slide : SmartVoiceDetector.t :=
  snd (detect no_fuzz scenario_A 100 (py "next slide")).

(** The state in which [detect] reaches the catalog scan. *)
Definition scanned (d : SmartVoiceDetector.t) (now : Q) (text s : str) : Prop :=
  validate_and_sanitize text = Sanitized s /\
  ~ now - last_execution_time d < cooldown_seconds d /\
  (2 <= length (strip s))%nat.

Section Statements.
Variable fuzz_ratio : str -> str -> option Z.

(** C1 as the spec states it: the top-ranked candidate is accepted
    exactly when its score reaches the threshold handed out by the
    tracker for its command. *)
Definition adaptive_decision (d : SmartVoiceDetector.t) (now : Q)
    (text : str) : Prop :=
  forall (s : str) (best : Candidate) (rest : list Candidate),
    scanned d now text s ->
    sort (strip (lower s)) (scan fuzz_ratio d (strip (lower s)))
      = best :: rest ->
    exists threshold,
      snd (AdaptiveMatcher.get_adaptive_threshold (adaptive_matcher d)
             (Some (command best))) = Some threshold /\
      (fst (detect fuzz_ratio d now text) = Matched best
       <-> threshold <= score best) /\
      (~ threshold <= score best ->
       returned (fst (detect fuzz_ratio d now text))
       = Unknown (Some (score best)) (Some (cand_description best))
                 (strip (lower s))).

(** C3 as the spec states it: inside the cooldown window the call ends
    at the cooldown gate, whatever the text. *)
Definition cooldown_first (d : SmartVoiceDetector.t) (now : Q)
    (text : str) : Prop :=
  now - last_execution_time d < cooldown_seconds d ->
  detect fuzz_ratio d now text = (CooldownActive, d).

(** C4 as the spec states it. *)
Definition exact_phrase_law (d : SmartVoiceDetector.t) : Prop :=
  forall (now : Q) (c : str) (data : CommandData) (p : str),
    (c, data) ∈ wake_words d -> p ∈ phrases data ->
    ~ now - last_execution_time d < cooldown_seconds d ->
    (forall c' data', (c', data') ∈ wake_words d -> p ∈ phrases data' ->
                      c' = c) ->
    exists best,
      fst (detect fuzz_ratio d now p) = Matched best /\
      command best = c /\ score best == inject_Z (weight data + 20).

Fixpoint lookup_command (c : str) (catalog : list (str * CommandData))
    : option CommandData :=
  match catalog with
  | [] => None
  | (c', data) :: rest =>
      if str_eqb c' c then Some data else lookup_command c rest
  end.

(** No command other than [c] lists [p]. *)
Definition only_listed_by (c p : str) (catalog : list (str * CommandData))
    : bool :=
  forallb (fun item => (negb (mem p (phrases (snd item)))
                        || str_eqb (fst item) c)%bool) catalog.

(** A check that the law of C4 is broken for the phrase [p] of the
    command [c]. *)
Definition law_violated (d : SmartVoiceDetector.t) (now : Q) (c p : str)
    : bool :=
  match lookup_command c (wake_words d) with
  | None => false
  | Some data =>
      (mem p (phrases data)
       && negb (AdaptiveMatcher.Qltb (now - last_execution_time d)
                                     (cooldown_seconds d))
       && only_listed_by c p (wake_words d)
       && match fst (detect fuzz_ratio d now p) with
          | Matched best =>
              negb (str_eqb (command best) c
                    && Qeq_bool (score best) (inject_Z (weight data + 20)))
          | _ => true
          end)%bool
  end.

End Statements.

(** A check that a phrase meets the side conditions under which the
    exact match wins: the validator returns it unchanged, its command
    is safe and reaches the threshold, and no phrase of a command
    heavier by 10 or more scores as high. *)
Definition phrase_ok (catalog : list (str * CommandData)) (c : str)
    (data : CommandData) (p : str) : bool :=
  (match validate_and_sanitize p with
   | Sanitized s => str_eqb s p
   | Refused _ => false
   end
   && str_eqb (lower p) p && str_eqb (strip p) p
   && validate_command c && (8 <=? weight data + 20)%Z
   && Nat.leb (length (split p)) 3
   && forallb (fun item =>
        if (weight data + 20 <=? weight (snd item) + 10)%Z
        then
          ((weight (snd item) + 5 <? weight data + 20)%Z
           && forallb (fun p' =>
                (str_eqb p' p
                 || AdaptiveMatcher.Qltb
                      (base_score p p' (weight (snd item)))
                      (inject_Z (weight data + 20)))%bool)
                (phrases (snd item)))%bool
        else true) catalog)%bool.

Definition catalog_ok (catalog : list (str * CommandData)) : bool :=
  (bool_decide (NoDup (catalog.*1))
   && forallb (fun item =>
        forallb (phrase_ok catalog (fst item) (snd item))
                (phrases (snd item))) catalog)%bool.

(** A training session in which only the last command was heard, as
    "Stop programs". *)
Definition training_session : list (str * list str) :=
  [ (py "next slide", []); (py "back slide", []);
    (py "open slide show", []); (py "close slide show", []);
    (py "help menu", []); (py "stop program", [py "Stop programs"]) ].


(** The phrase lists from which [__init__] starts, per command. *)
Definition seeded_phrases : list (str * list str) :=
  [ (py "next", next_seeds);
    (py "previous", previous_seeds);
    (py "open_slideshow", open_slideshow_phrases);
    (py "close_slideshow", close_slideshow_phrases);
    (py "help", help_phrases);
    (py "stop", stop_phrases);
    (py "test", test_phrases);
    (py "noise", noise_phrases);
    (py "popup_on", popup_on_phrases);
    (py "popup_off", popup_off_phrases);
    (py "caption_on", caption_on_phrases);
    (py "caption_off", caption_off_phrases);
    (py "change_language", change_language_phrases);
    (py "show_analytics", show_analytics_phrases) ].

(** The commands whose list [__init__] passes through
    [_expand_with_variants]. *)
Definition expanded_commands : list str := [py "next"; py "previous"].

(** Following the spec's words: seeded phrases united with the
    generated and regional variants, variants shorter than 2 characters
    left out. *)
Definition in_expansion (seeds : list str) (p : str) : Prop :=
  p ∈ seeds \/
  exists seed variants,
    seed ∈ seeds /\
    (PhonemeVariants.generate_variants seed = Some variants \/
     PhonemeVariants.add_regional_variants seed (py "mixed") = Some variants) /\
    p ∈ variants /\ (2 <= length p)%nat.

(** C2 as the spec states it: every command's phrase set is the
    expansion of its seeds. *)
Definition all_commands_expanded (catalog : list (str * CommandData)) : Prop :=
  forall c data, (c, data) ∈ catalog ->
    exists seeds,
      PhonemeVariants.lookup_table c seeded_phrases = Some seeds /\
      forall p, p ∈ phrases data <-> in_expansion seeds p.

End Scenarios.

(** * Properties *)

(** ** Rational comparisons used by the code *)

Section Comparisons.
Local Open Scope Q_scope.
Import AdaptiveMatcher.

Lemma Qltb_lt (x y : Q) : Qltb x y = true <-> x < y.
Proof.
  unfold Qltb. rewrite negb_true_iff.
  split.
  - intros H. apply Qnot_le_lt. intros Hle.
    apply Qle_bool_iff in Hle. congruence.
  - intros H. destruct (Qle_bool y x) eqn:E; [|reflexivity].
    apply Qle_bool_iff in E. exfalso. revert E. apply Qlt_not_le, H.
Qed.

Lemma Qltb_ge (x y : Q) : Qltb x y = false <-> y <= x.
Proof.
  unfold Qltb. rewrite negb_false_iff. apply Qle_bool_iff.
Qed.



Lemma clamp_bounds (x : Q) : 3 <= py_max 3 (py_min 8 x) <= 8.
Proof.
  unfold py_max, py_min.
  destruct (Qltb x 8) eqn:E1.
  - apply Qltb_lt in E1.
    destruct (Qltb 3 x) eqn:E2.
    + apply Qltb_lt in E2. lra.
    + lra.
  - destruct (Qltb 3 8) eqn:E2.
    + lra.
    + apply Qltb_ge in E2. lra.
Qed.

Lemma leniency_bounds (x : Q) : 3 <= x <= 8 -> 3 <= py_max 3 (x - (1#2)) <= 8.
Proof.
  intros Hx. unfold py_max.
  destruct (Qltb 3 (x - (1#2))) eqn:E.
  - apply Qltb_lt in E. lra.
  - lra.
Qed.

End Comparisons.

(** ** The adaptive threshold *)

Section Threshold.
Local Open Scope Q_scope.
Import AdaptiveMatcher Predicates.


Lemma adjust_threshold_base (m : t) :
  base_threshold (fst (adjust_threshold m)) = base_threshold m.
Proof. reflexivity. Qed.

(** With the default base the name [reason] is always bound. *)
Lemma reason_bound (m : t) :
  base_threshold m = 6 -> exists r, reason m = Some r.
Proof.
  intros Hb. unfold reason. rewrite Hb.
  destruct (Qltb (1#2) (failure_rate m)); simpl; eauto.
Qed.

Lemma perform_clamped (m : t) (c : call) :
  clamped m -> clamped (fst (perform m c)) /\ reply_ok (snd (perform m c)).
Proof.
  intros [Hb Hc]. destruct c as [cmd sc|now text sc| |cmd]; simpl.
  - repeat split; simpl; tauto.
  - repeat split; simpl; tauto.
  - destruct (reason_bound m Hb) as [r Hr].
    unfold adjust_threshold. rewrite Hr. simpl.
    pose proof (clamp_bounds (base_threshold m + adjustment m)).
    repeat split; simpl; tauto.
  - destruct (reason_bound m Hb) as [r Hr].
    unfold get_adaptive_threshold, adjust_threshold. rewrite Hr. simpl.
    pose proof (clamp_bounds (base_threshold m + adjustment m)) as Hcl.
    split; [repeat split; simpl; tauto|].
    destruct cmd as [[|c0 cmd]|]; try exact Hcl.
    match goal with
    | |- context [match ?x with Some _ => _ | None => _ end] =>
        destruct x as [freq|]
    end; try exact Hcl.
    destruct (10 <? freq)%Z; try exact Hcl.
    apply leniency_bounds, Hcl.
Qed.

Lemma run_clamped (calls : list call) (m : t) :
  clamped m ->
  clamped (fst (run m calls)) /\ Forall reply_ok (snd (run m calls)).
Proof.
  revert m. induction calls as [|c calls IH]; intros m Hm; simpl.
  - split; [exact Hm | constructor].
  - destruct (perform_clamped m c Hm) as [H1 Hr].
    destruct (perform m c) as [m1 r]. simpl in H1, Hr.
    destruct (IH m1 H1) as [H2 Hrs].
    destruct (run m1 calls) as [m2 rs]. simpl in *.
    split; [exact H2 | constructor; assumption].
Qed.

(** C7.  After any finite sequence of [record_success],
    [record_failure], [adjust_threshold] and [get_adaptive_threshold]
    calls on a tracker built with the default base threshold 6.0, the
    field [current_threshold] lies in [3.0, 8.0]; no call raises, and
    every threshold a call returns lies in [3.0, 8.0] as well, the
    per-command leniency of 0.5 included. *)
Theorem threshold_stays_clamped (calls : list call) :
  3 <= current_threshold (fst (run (init 6) calls)) <= 8 /\
  Forall reply_ok (snd (run (init 6) calls)).
Proof.
  assert (Hinit : clamped (init 6)).
  { split; [reflexivity | simpl; lra]. }
  destruct (run_clamped calls (init 6) Hinit) as [[_ Hc] Hr].
  split; assumption.
Qed.

(** *** The adjustment formula *)



(** *** The failure window after a history of outcomes *)


Lemma record_base (m : t) (o : outcome) :
  base_threshold (record m o) = base_threshold m.
Proof. destruct o; reflexivity. Qed.

Lemma fold_record_base (history : list outcome) (m : t) :
  base_threshold (fold_left record history m) = base_threshold m.
Proof.
  revert m. induction history as [|o h IH]; intros m; simpl.
  - reflexivity.
  - rewrite IH. apply record_base.
Qed.



Lemma high_failure_rate (m : t) :
  (6 <= length (recent_failures m))%nat -> Qltb (1#2) (failure_rate m) = true.
Proof.
  intros H. apply Qltb_lt. unfold failure_rate.
  destruct (recent_failures m) as [|x l]; [simpl in H; lia|].
  unfold len. remember (Z.of_nat (length (x :: l))) as n eqn:En.
  assert (Hn : (6 <= n)%Z) by lia. clear En H.
  unfold Qdiv, Qlt. cbn. lia.
Qed.




(** *** Pronunciation records *)

Lemma record_failure_other (m : t) (now : Q) (text : str) (sc : Q) (key : str) :
  pronunciation_key text <> key ->
  user_pronunciations (record_failure m now text sc) !! key
  = user_pronunciations m !! key.
Proof.
  intros Hne. unfold record_failure. simpl.
  apply lookup_insert_ne. exact Hne.
Qed.

Lemma record_failure_same (m : t) (now : Q) (text : str) (sc : Q) :
  user_pronunciations (record_failure m now text sc) !! pronunciation_key text
  = Some
      match user_pronunciations m !! pronunciation_key text with
      | Some r => {| attempts := (attempts r + 1)%Z;
                     best_score := py_max (best_score r) sc;
                     last_attempt := last_attempt r |}
      | None => {| attempts := 1; best_score := sc; last_attempt := now |}
      end.
Proof.
  unfold record_failure. simpl. rewrite lookup_insert_eq.
  destruct (user_pronunciations m !! pronunciation_key text) as [r|].
  - reflexivity.
  - simpl. f_equal. f_equal. unfold py_max.
    destruct (Qltb sc sc); reflexivity.
Qed.

Lemma py_max_cases (a b : Q) :
  (py_max a b = a /\ b <= a) \/ (py_max a b = b /\ a < b).
Proof.
  unfold py_max. destruct (Qltb a b) eqn:E.
  - right. split; [reflexivity | apply Qltb_lt, E].
  - left. split; [reflexivity | apply Qltb_ge, E].
Qed.

Lemma tracks_step (entry : option Pronunciation) (scores : list Q)
    (now sc : Q) :
  tracks entry scores ->
  tracks
    (Some match entry with
          | Some r => {| attempts := (attempts r + 1)%Z;
                         best_score := py_max (best_score r) sc;
                         last_attempt := last_attempt r |}
          | None => {| attempts := 1; best_score := sc; last_attempt := now |}
          end)
    (scores ++ [sc]).
Proof.
  unfold tracks. destruct entry as [r|].
  - intros (Ha & Hin & Hall). simpl.
    split; [rewrite length_app; simpl; lia|].
    destruct (py_max_cases (best_score r) sc) as [[-> Hle]|[-> Hlt]].
    + split; [apply in_or_app; left; exact Hin|].
      apply Forall_app. split; [exact Hall|]. constructor; [exact Hle|constructor].
    + split; [apply in_or_app; right; left; reflexivity|].
      apply Forall_app. split.
      * eapply Forall_impl; [exact Hall|]. simpl. intros s Hs. lra.
      * constructor; [lra|constructor].
  - intros ->. simpl. repeat split.
    + left; reflexivity.
    + constructor; [lra|constructor].
Qed.

Lemma scores_for_cons (key : str) (now : Q) (text : str) (sc : Q)
    (calls : list (Q * str * Q)) :
  scores_for key ((now, text, sc) :: calls)
  = if str_eqb (pronunciation_key text) key
    then sc :: scores_for key calls
    else scores_for key calls.
Proof.
  unfold scores_for. cbn [List.filter fst snd].
  destruct (str_eqb (pronunciation_key text) key); reflexivity.
Qed.

Lemma record_failures_cons (m : t) (now : Q) (text : str) (sc : Q)
    (calls : list (Q * str * Q)) :
  record_failures m ((now, text, sc) :: calls)
  = record_failures (record_failure m now text sc) calls.
Proof. reflexivity. Qed.

Lemma record_failures_tracks (key : str) (calls : list (Q * str * Q))
    (m : t) (prior : list Q) :
  tracks (user_pronunciations m !! key) prior ->
  tracks (user_pronunciations (record_failures m calls) !! key)
         (prior ++ scores_for key calls).
Proof.
  revert m prior. induction calls as [|[[now text] sc] calls IH];
    intros m prior Hm.
  - unfold scores_for. cbn [List.filter List.map record_failures fold_left].
    rewrite app_nil_r. exact Hm.
  - rewrite scores_for_cons, record_failures_cons. unfold str_eqb.
    destruct (decide (pronunciation_key text = key)) as [Heq|Hne].
    + rewrite bool_decide_eq_true_2 by exact Heq.
      replace (prior ++ sc :: scores_for key calls)
        with ((prior ++ [sc]) ++ scores_for key calls)
        by (rewrite <- app_assoc; reflexivity).
      apply IH. subst key. rewrite record_failure_same.
      apply tracks_step, Hm.
    + rewrite bool_decide_eq_false_2 by exact Hne.
      apply IH. rewrite record_failure_other by exact Hne. exact Hm.
Qed.

(** C10.  One [record_failure] call raises the attempt count stored
    under its key by exactly 1 (from 0 for a new key) and never lowers
    [best_score]; records under other keys are left alone.  After any
    sequence of [record_failure] calls on a fresh tracker, the record
    under a key counts the calls made with that key and its
    [best_score] is the maximum of the scores recorded with it. *)
Theorem pronunciation_record_tracks_failures :
  (forall (m : t) (now : Q) (text : str) (sc : Q),
     let key := pronunciation_key text in
     let m' := record_failure m now text sc in
     (exists r', user_pronunciations m' !! key = Some r' /\
        sc <= best_score r' /\
        match user_pronunciations m !! key with
        | Some r => attempts r' = (attempts r + 1)%Z /\
                    best_score r <= best_score r'
        | None => attempts r' = 1%Z /\ best_score r' = sc
        end) /\
     (forall other, other <> key ->
        user_pronunciations m' !! other = user_pronunciations m !! other)) /\
  (forall (base : Q) (key : str) (calls : list (Q * str * Q)),
     tracks (user_pronunciations (record_failures (init base) calls) !! key)
            (scores_for key calls)).
Proof.
  split.
  - intros m now text sc key m'. split.
    + eexists. split; [apply record_failure_same|].
      fold key. destruct (user_pronunciations m !! key) as [r|]; simpl.
      * destruct (py_max_cases (best_score r) sc) as [[-> H]|[-> H]];
          repeat split; lra.
      * repeat split; lra.
    + intros other Hne. apply record_failure_other.
      intros Heq. apply Hne. symmetry. exact Heq.
  - intros base key calls.
    apply (record_failures_tracks key calls (init base) []).
    simpl. rewrite lookup_empty. reflexivity.
Qed.

End Threshold.

(** ** The variant generator *)

Section Variants.
Import PhonemeVariants.

Lemma generate_variants_raises (phrase : str) :
  generate_variants phrase = None <-> split (lower phrase) = [].
Proof.
  unfold generate_variants.
  destruct (split (lower phrase)) as [|w0 [|w1 [|w2 ws]]]; simpl;
    split; intros H; try reflexivity; discriminate.
Qed.

Lemma generate_variants_contains_phrase (phrase : str) (variants : list str) :
  generate_variants phrase = Some variants -> phrase ∈ variants.
Proof.
  unfold generate_variants.
  destruct (List.map word_variants_of (split (lower phrase)))
    as [|wv0 [|wv1 [|wv2 wvs]]]; intros H; try discriminate;
    match type of H with
    | Some ?l = Some _ => assert (Hv : variants = l) by congruence
    end;
    rewrite Hv; unfold list_set; apply elem_of_remove_dups, elem_of_cons;
    left; reflexivity.
Qed.

Lemma add_regional_variants_superset (phrase region : str)
    (variants : list str) :
  generate_variants phrase = Some variants ->
  exists regional,
    add_regional_variants phrase region = Some regional /\
    forall v, v ∈ variants -> v ∈ regional.
Proof.
  intros H. unfold add_regional_variants. rewrite H.
  eexists. split; [reflexivity|].
  intros v Hv. apply elem_of_remove_dups.
  destruct (mem region [py "betawi"; py "mixed"]);
    destruct (mem region [py "sundanese"; py "mixed"]);
    destruct (mem region [py "javanese"; py "mixed"]);
    repeat (apply elem_of_app; left); exact Hv.
Qed.

(** Whenever the generator returns, the two properties hold. *)
Lemma variants_when_returned (phrase region : str) :
  split (lower phrase) <> [] ->
  exists variants regional,
    generate_variants phrase = Some variants /\
    add_regional_variants phrase region = Some regional /\
    phrase ∈ variants /\ forall v, v ∈ variants -> v ∈ regional.
Proof.
  intros Hne.
  destruct (generate_variants phrase) as [variants|] eqn:E.
  - destruct (add_regional_variants_superset phrase region variants E)
      as (regional & Hr & Hsub).
    exists variants, regional.
    eauto using generate_variants_contains_phrase.
  - apply generate_variants_raises in E. contradiction.
Qed.

(** C9 at the failing inputs.  For the empty phrase and for a phrase of
    blanks, [generate_variants] raises [IndexError] instead of returning
    a collection that contains the phrase, and so does
    [add_regional_variants] for every region. *)
Theorem generate_variants_tokenless :
  generate_variants (py "") = None /\
  generate_variants (py "   ") = None /\
  (forall region, add_regional_variants (py "") region = None) /\
  (forall region, add_regional_variants (py "   ") region = None).
Proof.
  repeat split; reflexivity.
Qed.

End Variants.

(** ** Validation of blank input *)

Section Blank.
Import InputValidator Predicates.

Ltac space_facts H :=
  unfold is_space, within in H;
  repeat (rewrite ?orb_true_iff, ?andb_true_iff, ?N.leb_le, ?N.eqb_eq in H).

Lemma lower_char_space (c : char) : is_space c = true -> lower_char c = c.
Proof.
  intros H. space_facts H. unfold lower_char, within.
  destruct (N.leb_spec 65 c); destruct (N.leb_spec c 90);
    destruct (N.leb_spec 192 c); destruct (N.leb_spec c 222);
    simpl; try reflexivity; lia.
Qed.

Lemma lower_blank (text : str) : blank text -> lower text = text.
Proof.
  induction 1 as [|c text Hc _ IH]; [reflexivity|].
  unfold lower in *. cbn [List.map].
  rewrite lower_char_space by exact Hc. rewrite IH. reflexivity.
Qed.

Lemma lstrip_blank (text : str) : blank text -> lstrip text = [].
Proof.
  induction 1 as [|c text Hc _ IH]; simpl; [reflexivity|].
  rewrite Hc. exact IH.
Qed.

Lemma strip_blank (text : str) : blank text -> strip text = [].
Proof.
  intros H. unfold strip. rewrite lstrip_blank by exact H. reflexivity.
Qed.

Lemma contains_blank (pattern text : str) :
  visible_start pattern = true -> blank text -> contains pattern text = false.
Proof.
  destruct pattern as [|a p]; [discriminate|]. simpl. intros Ha.
  apply negb_true_iff in Ha.
  induction 1 as [|c text Hc _ IH]; simpl; [reflexivity|].
  rewrite IH. destruct (N.eqb_spec a c) as [->|_]; [congruence|reflexivity].
Qed.

Lemma any_contains_blank (patterns : list str) (text : str) :
  forallb visible_start patterns = true -> blank text ->
  existsb (fun pattern => contains pattern text) patterns = false.
Proof.
  intros Hp Hb. induction patterns as [|q qs IH]; simpl in *; [reflexivity|].
  apply andb_true_iff in Hp as [Hq Hqs].
  rewrite contains_blank by assumption. simpl. apply IH, Hqs.
Qed.

Lemma one_of_blank (chars text : str) :
  forallb (fun a => negb (is_space a)) chars = true -> blank text ->
  existsb (one_of chars) text = false.
Proof.
  intros Hch. induction 1 as [|c text Hc _ IH]; simpl; [reflexivity|].
  rewrite IH, orb_false_r. unfold one_of.
  clear IH. induction chars as [|a chars IHc]; simpl in *; [reflexivity|].
  apply andb_true_iff in Hch as [Ha Hch]. apply negb_true_iff in Ha.
  rewrite IHc by exact Hch.
  destruct (N.eqb_spec c a) as [->|_]; [congruence|reflexivity].
Qed.

Lemma check_injection_blank (text : str) :
  blank text -> check_injection_attempt text = false.
Proof.
  intros H. unfold check_injection_attempt.
  rewrite lower_blank by exact H.
  apply any_contains_blank; [reflexivity | exact H].
Qed.

Lemma is_dangerous_blank (text : str) : blank text -> is_dangerous text = false.
Proof.
  intros H. unfold is_dangerous.
  assert (E : existsb (fun pattern => pattern text) DANGEROUS_PATTERNS = false).
  { unfold DANGEROUS_PATTERNS. cbn [existsb].
    rewrite one_of_blank by (reflexivity || exact H).
    rewrite !contains_blank by (reflexivity || exact H).
    reflexivity. }
  destruct text; [reflexivity | exact E].
Qed.

Lemma sanitize_blank (text : str) : blank text -> sanitize_voice_input text = [].
Proof.
  intros H. unfold sanitize_voice_input.
  rewrite lower_blank, strip_blank by exact H.
  destruct text; reflexivity.
Qed.

Lemma validate_blank (text : str) :
  blank text ->
  validate_and_sanitize text
  = Refused match text with
            | [] => "Invalid input"
            | _ => "Input too short or invalid"
            end.
Proof.
  intros H. unfold validate_and_sanitize.
  rewrite check_injection_blank, is_dangerous_blank, sanitize_blank
    by exact H.
  destruct text; reflexivity.
Qed.

End Blank.

(** ** Ranking *)

Section Ranking.
Local Open Scope Q_scope.
Import SmartVoiceDetector Predicates.
Import AdaptiveMatcher (Qltb).

Lemma key_lt_spec (a b : Q * Q * Z) : key_lt a b = true <-> key_less a b.
Proof.
  destruct a as [[a1 a2] a3], b as [[b1 b2] b3].
  unfold key_lt, key_less. cbn [fst snd].
  destruct (Qeq_bool a1 b1) eqn:E1; cbn [negb].
  - apply Qeq_bool_iff in E1.
    destruct (Qeq_bool a2 b2) eqn:E2; cbn [negb].
    + apply Qeq_bool_iff in E2. rewrite Z.ltb_lt. split.
      * intros H. right. split; [exact E1|]. right. split; assumption.
      * intros [H|[_ [H|[_ H]]]]; [lra | lra | exact H].
    + apply Qeq_bool_neq in E2. rewrite Qltb_lt. split.
      * intros H. right. split; [exact E1|]. left. exact H.
      * intros [H|[_ [H|[H _]]]]; [lra | exact H | contradiction].
  - apply Qeq_bool_neq in E1. rewrite Qltb_lt. split.
    + intros H. left. exact H.
    + intros [H|[H _]]; [exact H | contradiction].
Qed.

Lemma key_less_irrefl (a : Q * Q * Z) : ~ key_less a a.
Proof.
  unfold key_less. intros [H|[_ [H|[_ H]]]]; try lra; lia.
Qed.

Lemma key_less_asym (a b : Q * Q * Z) : key_less a b -> ~ key_less b a.
Proof.
  unfold key_less.
  intros [Ha|[Ha1 [Ha|[Ha2 Ha]]]] [Hb|[Hb1 [Hb|[Hb2 Hb]]]]; try lra; lia.
Qed.

Lemma key_leq_trans (a b c : Q * Q * Z) :
  key_leq a b -> key_leq b c -> key_leq a c.
Proof.
  unfold key_leq, key_less.
  destruct a as [[a1 a2] a3], b as [[b1 b2] b3], c as [[c1 c2] c3].
  cbn [fst snd]. intros Hab Hbc Hca.
  destruct (Q_dec a1 b1) as [[?|?]|?]; [| apply Hab; left; assumption |].
  - destruct (Q_dec b1 c1) as [[?|?]|?];
      [| apply Hbc; left; assumption |];
      destruct Hca as [H|[H _]]; lra.
  - destruct (Q_dec b1 c1) as [[?|?]|?]; [| apply Hbc; left; assumption |].
    + destruct Hca as [H|[H _]]; lra.
    + destruct (Q_dec a2 b2) as [[?|?]|?];
        [| apply Hab; right; split; [lra | left; assumption] |].
      * destruct (Q_dec b2 c2) as [[?|?]|?];
          [| apply Hbc; right; split; [lra | left; assumption] |];
          destruct Hca as [H|[_ [H|[H _]]]]; lra.
      * destruct (Q_dec b2 c2) as [[?|?]|?];
          [| apply Hbc; right; split; [lra | left; assumption] |].
        -- destruct Hca as [H|[_ [H|[H _]]]]; lra.
        -- assert (~ (b3 < a3)%Z).
           { intros Hlt. apply Hab. right. split; [lra|]. right.
             split; [lra | exact Hlt]. }
           assert (~ (c3 < b3)%Z).
           { intros Hlt. apply Hbc. right. split; [lra|]. right.
             split; [lra | exact Hlt]. }
           destruct Hca as [Hc|[_ [Hc|[_ Hc]]]]; try lra; lia.
Qed.

Section Sorting.
Variable text_lower : str.

Lemma insert_by_perm (x : Candidate) (l : list Candidate) :
  insert_by text_lower x l ≡ₚ x :: l.
Proof.
  induction l as [|y l IH]; cbn [insert_by]; [reflexivity|].
  destruct (key_lt _ _); [|reflexivity].
  rewrite IH. apply Permutation_swap.
Qed.

Lemma sort_perm (l : list Candidate) : sort text_lower l ≡ₚ l.
Proof.
  induction l as [|x l IH]; cbn; [reflexivity|].
  fold (sort text_lower l). rewrite insert_by_perm, IH. reflexivity.
Qed.

Lemma insert_by_sorted (x : Candidate) (l : list Candidate) :
  StronglySorted (ranked_before text_lower) l ->
  StronglySorted (ranked_before text_lower) (insert_by text_lower x l).
Proof.
  induction 1 as [|y l Hs IH Hy]; cbn [insert_by].
  - repeat constructor.
  - destruct (key_lt (sort_key text_lower y) (sort_key text_lower x)) eqn:E.
    + constructor; [exact IH|].
      rewrite insert_by_perm. constructor; [|exact Hy].
      apply key_lt_spec in E. unfold ranked_before, key_leq.
      apply key_less_asym, E.
    + assert (Hxy : ranked_before text_lower x y).
      { unfold ranked_before, key_leq. rewrite <- key_lt_spec. congruence. }
      constructor; [constructor; assumption|].
      constructor; [exact Hxy|].
      eapply Forall_impl; [exact Hy|]. intros z Hz.
      unfold ranked_before in *. eapply key_leq_trans; eassumption.
Qed.

Lemma sort_sorted (l : list Candidate) :
  StronglySorted (ranked_before text_lower) (sort text_lower l).
Proof.
  induction l as [|x l IH]; cbn; [constructor|].
  apply insert_by_sorted, IH.
Qed.


(** The first element of the sorted list is not after any candidate. *)
Lemma sort_head (l : list Candidate) (best : Candidate)
    (rest : list Candidate) :
  sort text_lower l = best :: rest ->
  best ∈ l /\ forall y, y ∈ l -> ranked_before text_lower best y.
Proof.
  intros E. pose proof (sort_sorted l) as Hs. pose proof (sort_perm l) as Hp.
  rewrite E in Hs, Hp. split.
  - rewrite <- Hp. left.
  - intros y Hy. rewrite <- Hp in Hy. apply elem_of_cons in Hy as [->|Hy].
    + unfold ranked_before, key_leq. apply key_less_irrefl.
    + apply StronglySorted_inv in Hs as [_ Hall].
      rewrite Forall_forall in Hall. apply Hall, Hy.
Qed.

End Sorting.

Variable fuzz_ratio : str -> str -> option Z.


End Ranking.

(** ** Detection *)

Section Detection.
Local Open Scope Q_scope.
Import SmartVoiceDetector InputValidator Predicates Scenarios.

Variable fuzz_ratio : str -> str -> option Z.

(** C8.  The empty string and text made of whitespace only are refused
    by the validator, first thing in [detect]: the call returns [None]
    from line 140, before the cooldown check and the scan, and the
    detector (threshold windows, pronunciation map, cooldown timestamp,
    unrecognised-input file) is left as it was. *)
Theorem blank_input_rejected (d : SmartVoiceDetector.t) (now : Q)
    (text : str) :
  blank text ->
  exists error,
    validate_and_sanitize text = Refused error /\
    detect fuzz_ratio d now text = (ValidationRejected error, d) /\
    returned (ValidationRejected error) = PyNone.
Proof.
  intros H. eexists. split; [apply validate_blank, H|].
  unfold detect. rewrite validate_blank by exact H.
  split; reflexivity.
Qed.

Lemma detect_scanned (d : SmartVoiceDetector.t) (now : Q) (text s : str)
    (best : Candidate) (rest : list Candidate) :
  scanned d now text s ->
  sort (strip (lower s)) (scan fuzz_ratio d (strip (lower s))) = best :: rest ->
  detect fuzz_ratio d now text
  = if Qle_bool min_score_threshold (score best) then
      if negb (validate_command (command best))
      then (CommandRejected best, d)
      else
        (Matched best,
         set_matcher (set_last_execution_time d now)
           (AdaptiveMatcher.record_success (adaptive_matcher d)
              (command best) (score best)))
    else
      let d1 :=
        _save_unrecognized_command d now (strip (lower s))
          (Some (command best)) (score best)
          (Some (cand_description best)) in
      (LowConfidence best (strip (lower s)),
       set_matcher d1
         (AdaptiveMatcher.record_failure (adaptive_matcher d1) now s
            (score best))).
Proof.
  intros (Hv & Hcool & Hlen) Hsort. unfold detect. rewrite Hv.
  destruct (AdaptiveMatcher.Qltb _ _) eqn:E;
    [apply Qltb_lt in E; contradiction|].
  unfold decide_command.
  assert (Hshort : (match s with
                    | [] => true
                    | _ => Nat.ltb (length (strip s)) 2
                    end) = false).
  { destruct s as [|c s]; [cbn in Hlen; lia|].
    apply Nat.ltb_ge. exact Hlen. }
  rewrite Hshort, Hsort. reflexivity.
Qed.

Lemma save_keeps_matcher (d : SmartVoiceDetector.t) (now : Q) (u : str)
    (c : option str) (q : Q) (sg : option str) :
  adaptive_matcher (_save_unrecognized_command d now u c q sg)
  = adaptive_matcher d /\
  last_execution_time (_save_unrecognized_command d now u c q sg)
  = last_execution_time d.
Proof.
  unfold _save_unrecognized_command.
  destruct (sink_writable d); split; reflexivity.
Qed.

(** C1 (amended).  Once the scan has produced a top-ranked candidate,
    [detect] compares its score with the literal 8.0: the result is
    [Matched] exactly when the score is at least 8.0 and the command is
    one of [SAFE_COMMANDS]; below 8.0 the result is [Unknown] with the
    candidate's description as suggestion.  The tracker is written to
    but its threshold is neither read nor recomputed. *)
Theorem decision_uses_fixed_threshold (d : SmartVoiceDetector.t) (now : Q)
    (text s : str) (best : Candidate) (rest : list Candidate) :
  scanned d now text s ->
  sort (strip (lower s)) (scan fuzz_ratio d (strip (lower s))) = best :: rest ->
  let o := fst (detect fuzz_ratio d now text) in
  let d' := snd (detect fuzz_ratio d now text) in
  (o = Matched best
   <-> 8 <= score best /\ validate_command (command best) = true) /\
  (score best < 8 ->
   o = LowConfidence best (strip (lower s)) /\
   returned o = Unknown (Some (score best)) (Some (cand_description best))
                        (strip (lower s))) /\
  AdaptiveMatcher.current_threshold (adaptive_matcher d')
  = AdaptiveMatcher.current_threshold (adaptive_matcher d).
Proof.
  intros Hs Hsort o d'. subst o d'.
  rewrite (detect_scanned d now text s best rest Hs Hsort).
  unfold min_score_threshold.
  destruct (Qle_bool 8 (score best)) eqn:E.
  - apply Qle_bool_iff in E.
    destruct (validate_command (command best)) eqn:Ev; cbn [negb fst snd].
    + split; [split; [intros _; split; [exact E|reflexivity] | reflexivity]|].
      split; [intros Hlt; lra | reflexivity].
    + split; [split; [discriminate | intros [_ Hf]; discriminate]|].
      split; [intros Hlt; lra | reflexivity].
  - assert (Hlt : score best < 8).
    { apply Qnot_le_lt. intros Hle. apply Qle_bool_iff in Hle. congruence. }
    cbn [fst snd]. split; [split; [discriminate | intros [Hle _]; lra]|].
    split; [intros _; split; reflexivity|].
    cbn. apply f_equal. apply save_keeps_matcher.
Qed.

Lemma decide_command_timestamp (d : SmartVoiceDetector.t) (now : Q)
    (s : str) :
  (exists best, fst (decide_command fuzz_ratio d now s) = Matched best /\
     last_execution_time (snd (decide_command fuzz_ratio d now s)) = now) \/
  (last_execution_time (snd (decide_command fuzz_ratio d now s))
     = last_execution_time d /\
   forall best, fst (decide_command fuzz_ratio d now s) <> Matched best).
Proof.
  unfold decide_command.
  destruct (match s with [] => true | _ => _ end).
  { right. split; [reflexivity | discriminate]. }
  destruct (sort _ _) as [|best rest].
  { right. cbn [fst snd]. split; [apply save_keeps_matcher | discriminate]. }
  destruct (Qle_bool _ _).
  - destruct (negb _).
    + right. split; [reflexivity | discriminate].
    + left. exists best. split; reflexivity.
  - right. cbn [fst snd]. split; [|discriminate].
    cbn. apply save_keeps_matcher.
Qed.

(** C3 (amended).  [detect] runs the validator first.  A call made less
    than [cooldown_seconds] after the last accepted detection returns
    [None] and leaves the detector untouched: text the validator
    refuses ends at the validation exit, any other text ends at the
    cooldown gate, and in neither case is the catalog scanned.  The
    cooldown timestamp changes only when a call returns [Matched], and
    is then the time of that call; a detector built by [__init__] has
    a cooldown of 2 seconds. *)
Theorem cooldown_gate (d : SmartVoiceDetector.t) (now : Q) (text : str) :
  (now - last_execution_time d < cooldown_seconds d ->
   snd (detect fuzz_ratio d now text) = d /\
   returned (fst (detect fuzz_ratio d now text)) = PyNone /\
   match validate_and_sanitize text with
   | Refused error =>
       fst (detect fuzz_ratio d now text) = ValidationRejected error
   | Sanitized _ => fst (detect fuzz_ratio d now text) = CooldownActive
   end) /\
  ((exists best,
      fst (detect fuzz_ratio d now text) = Matched best /\
      last_execution_time (snd (detect fuzz_ratio d now text)) = now) \/
   (last_execution_time (snd (detect fuzz_ratio d now text))
      = last_execution_time d /\
    forall best, fst (detect fuzz_ratio d now text) <> Matched best)) /\
  (forall fuzzy sink d0,
     SmartVoiceDetector.init fuzzy sink = Some d0 -> cooldown_seconds d0 = 2).
Proof.
  split; [|split].
  - intros Hcool. unfold detect.
    destruct (validate_and_sanitize text) as [s|error].
    + apply Qltb_lt in Hcool. rewrite Hcool. repeat split.
    + repeat split.
  - unfold detect. destruct (validate_and_sanitize text) as [s|error].
    + destruct (AdaptiveMatcher.Qltb _ _).
      * right. split; [reflexivity | discriminate].
      * apply decide_command_timestamp.
    + right. split; [reflexivity | discriminate].
  - intros fuzzy sink d0. unfold SmartVoiceDetector.init.
    destruct build_wake_words; [|discriminate].
    intros [= <-]. reflexivity.
Qed.

(** *** Exact phrases *)

Lemma validate_length (text s : str) :
  validate_and_sanitize text = Sanitized s -> (2 <= length s <= 200)%nat.
Proof.
  unfold validate_and_sanitize. destruct text as [|c text]; [discriminate|].
  destruct (check_injection_attempt _); [discriminate|].
  destruct (is_dangerous _); [discriminate|].
  generalize (sanitize_voice_input (c :: text)). intros san.
  destruct (Nat.ltb (length san) 2) eqn:E1; [discriminate|].
  destruct (Nat.ltb 200 (length san)) eqn:E2; [discriminate|].
  intros H. assert (san = s) by congruence. subst san.
  apply Nat.ltb_ge in E1, E2. lia.
Qed.

Lemma scan_elem (d : SmartVoiceDetector.t) (text_lower : str) (x : Candidate) :
  x ∈ scan fuzz_ratio d text_lower <->
  exists c data,
    (c, data) ∈ wake_words d /\ phrase x ∈ phrases data /\
    0 < score x /\
    x = {| command := c; phrase := phrase x;
           score := phrase_score fuzz_ratio (fuzzy_available d) text_lower
                      (phrase x) (weight data);
           max_score := (weight data + 20)%Z;
           cand_description := description data |}.
Proof.
  unfold scan. rewrite list_elem_of_In, in_flat_map. split.
  - intros ([c data] & Hin & Hx). unfold scan_command in Hx.
    apply in_flat_map in Hx as (p & Hp & Hx).
    destruct (AdaptiveMatcher.Qltb 0 _) eqn:E; [|destruct Hx].
    destruct Hx as [<-|[]]. cbn [phrase score].
    exists c, data. apply Qltb_lt in E.
    rewrite !list_elem_of_In. tauto.
  - intros (c & data & Hin & Hp & Hpos & Hx).
    exists (c, data). rewrite <- list_elem_of_In. split; [exact Hin|].
    unfold scan_command. apply in_flat_map. exists (phrase x).
    rewrite <- list_elem_of_In. split; [exact Hp|].
    rewrite Hx in Hpos. cbn [score] in Hpos.
    apply Qltb_lt in Hpos. rewrite Hpos. left. symmetry. exact Hx.
Qed.

Lemma exact_score (fuzzy : bool) (p : str) (w : Z) :
  (8 <= w + 20)%Z -> phrase_score fuzz_ratio fuzzy p p w = inject_Z (w + 20).
Proof.
  intros Hw. unfold phrase_score, base_score, str_eqb.
  rewrite bool_decide_eq_true_2 by reflexivity.
  destruct (Qeq_bool (inject_Z (w + 20)) 0) eqn:E; [|reflexivity].
  apply Qeq_bool_iff in E. unfold Qeq in E. cbn in E. lia.
Qed.

Lemma unique_data (catalog : list (str * CommandData)) (c : str)
    (data data' : CommandData) :
  NoDup (catalog.*1) -> (c, data) ∈ catalog -> (c, data') ∈ catalog ->
  data = data'.
Proof.
  induction catalog as [|[c0 d0] l IH]; cbn [fmap list_fmap fst].
  - intros _ H. apply elem_of_nil in H. destruct H.
  - intros Hnd H1 H2. apply NoDup_cons in Hnd as [Hnotin Hnd].
    apply elem_of_cons in H1 as [H1|H1];
      apply elem_of_cons in H2 as [H2|H2].
    + congruence.
    + exfalso. apply Hnotin. injection H1 as -> ->.
      apply (list_elem_of_fmap_2 fst) in H2. exact H2.
    + exfalso. apply Hnotin. injection H2 as -> ->.
      apply (list_elem_of_fmap_2 fst) in H1. exact H1.
    + apply IH; assumption.
Qed.


(** Under the side conditions of C4 the call returns the exact
    candidate and records it as a success. *)
Lemma exact_phrase_outcome (d : SmartVoiceDetector.t) (now : Q)
    (c : str) (data : CommandData) (p : str) :
  NoDup ((wake_words d).*1) ->
  (c, data) ∈ wake_words d -> p ∈ phrases data ->
  ~ now - last_execution_time d < cooldown_seconds d ->
  validate_and_sanitize p = Sanitized p -> lower p = p -> strip p = p ->
  validate_command c = true -> (8 <= weight data + 20)%Z ->
  (forall c' data', (c', data') ∈ wake_words d -> p ∈ phrases data' ->
                    c' = c) ->
  (forall c' data' p',
     (c', data') ∈ wake_words d -> p' ∈ phrases data' -> p' <> p ->
     phrase_score fuzz_ratio (fuzzy_available d) p p' (weight data')
     < inject_Z (weight data + 20)) ->
  detect fuzz_ratio d now p
  = (Matched (exact_candidate c data p),
     set_matcher (set_last_execution_time d now)
       (AdaptiveMatcher.record_success (adaptive_matcher d) c
          (inject_Z (weight data + 20)))).
Proof.
  intros Hnd Hc Hp Hcool Hv Hlow Hstrip Hsafe Hw Huniq Hdom.
  assert (Hlen := validate_length p p Hv).
  assert (Hs : scanned d now p p).
  { repeat split; try assumption; rewrite Hstrip; lia. }
  assert (Hx0 : exact_candidate c data p ∈ scan fuzz_ratio d p).
  { apply scan_elem. exists c, data. unfold exact_candidate.
    cbn [phrase score]. rewrite exact_score by exact Hw.
    repeat split; try assumption.
    change 0 with (inject_Z 0). rewrite <- Zlt_Qlt. lia. }
  destruct (sort p (scan fuzz_ratio d p)) as [|best rest] eqn:Hsort.
  { pose proof (sort_perm p (scan fuzz_ratio d p)) as Hperm.
    rewrite Hsort in Hperm. rewrite <- Hperm in Hx0.
    apply elem_of_nil in Hx0. destruct Hx0. }
  destruct (sort_head p _ best rest Hsort) as [Hbest Hmin].
  specialize (Hmin _ Hx0).
  assert (Hge : inject_Z (weight data + 20) <= score best).
  { apply Qnot_lt_le. intros Hlt. apply Hmin.
    unfold key_less, sort_key. cbn [fst snd exact_candidate score].
    left. lra. }
  apply scan_elem in Hbest as (c' & data' & Hc' & Hp' & Hpos & Hbest).
  assert (Hpp : phrase best = p).
  { destruct (decide (phrase best = p)) as [E|E]; [exact E|].
    exfalso. specialize (Hdom c' data' (phrase best) Hc' Hp' E).
    rewrite Hbest in Hge. cbn [score] in Hge. lra. }
  rewrite Hpp in Hp'. assert (c' = c) by eauto. subst c'.
  assert (data' = data) by eauto using unique_data. subst data'.
  rewrite Hpp, exact_score in Hbest by exact Hw.
  fold (exact_candidate c data p) in Hbest. subst best.
  assert (Hsort' : sort (strip (lower p)) (scan fuzz_ratio d (strip (lower p)))
                   = exact_candidate c data p :: rest).
  { rewrite Hlow, Hstrip. exact Hsort. }
  rewrite (detect_scanned d now p p _ rest Hs Hsort').
  unfold min_score_threshold. cbn [exact_candidate score command].
  assert (Hq8 : Qle_bool 8 (inject_Z (weight data + 20)) = true).
  { apply Qle_bool_iff. change 8 with (inject_Z 8). rewrite <- Zle_Qle. lia. }
  rewrite Hq8, Hsafe. reflexivity.
Qed.

(** *** A check that refutes the law, and a check that ensures it *)

Lemma lookup_command_elem (c : str) (catalog : list (str * CommandData))
    (data : CommandData) :
  lookup_command c catalog = Some data -> (c, data) ∈ catalog.
Proof.
  induction catalog as [|[c' data'] rest IH]; cbn [lookup_command];
    [discriminate|].
  unfold str_eqb. case_bool_decide as E.
  - intros [= ->]. subst c'. left.
  - intros H. right. apply IH, H.
Qed.

Lemma only_listed_by_spec (c p : str) (catalog : list (str * CommandData)) :
  only_listed_by c p catalog = true ->
  forall c' data', (c', data') ∈ catalog -> p ∈ phrases data' -> c' = c.
Proof.
  unfold only_listed_by. rewrite forallb_forall.
  intros H c' data' Hin Hp. apply list_elem_of_In in Hin.
  specialize (H _ Hin). cbn [fst snd] in H.
  apply orb_true_iff in H as [H|H].
  - apply negb_true_iff in H. unfold mem in H.
    apply bool_decide_eq_false_1 in H. contradiction.
  - apply bool_decide_eq_true_1 in H. exact H.
Qed.

Lemma law_violated_sound (d : SmartVoiceDetector.t) (now : Q) (c p : str) :
  law_violated fuzz_ratio d now c p = true -> ~ exact_phrase_law fuzz_ratio d.
Proof.
  unfold law_violated.
  destruct (lookup_command c (wake_words d)) as [data|] eqn:El;
    [|discriminate].
  rewrite !andb_true_iff. intros [[[Hp Hcool] Hu] Hres] Hlaw.
  destruct (Hlaw now c data p) as (best & Hbest & Hcmd & Hscore).
  - apply lookup_command_elem, El.
  - apply bool_decide_eq_true_1 in Hp. exact Hp.
  - apply negb_true_iff, Qltb_ge in Hcool. lra.
  - apply only_listed_by_spec, Hu.
  - rewrite Hbest in Hres. apply negb_true_iff, andb_false_iff in Hres.
    destruct Hres as [Hres|Hres].
    + apply bool_decide_eq_false_1 in Hres. contradiction.
    + apply Qeq_bool_neq in Hres. contradiction.
Qed.

Lemma matching_words_length (text_lower phrase : str) :
  (length (matching_words text_lower phrase) <= length (split phrase))%nat.
Proof.
  unfold matching_words. induction (split phrase) as [|w ws IH];
    cbn [List.filter length]; [lia|].
  destruct (mem w (split text_lower)); cbn [length]; lia.
Qed.

(** Any phrase of at most three words other than the text scores 0 or
    at most weight + 10 before the fuzzy step. *)
Lemma base_score_bound (text_lower phrase : str) (w : Z) :
  phrase <> text_lower -> (length (split phrase) <= 3)%nat ->
  base_score text_lower phrase w = 0 \/
  base_score text_lower phrase w <= inject_Z (w + 10).
Proof.
  intros Hne Hlen. unfold base_score, str_eqb.
  rewrite bool_decide_eq_false_2 by exact Hne.
  destruct (contains phrase text_lower); [right; lra|].
  pose proof (matching_words_length text_lower phrase) as Hm.
  destruct (Nat.leb 2 _) eqn:E.
  - right. rewrite <- Zle_Qle. lia.
  - destruct (_ && _)%bool; [|left; reflexivity].
    right. rewrite <- Zle_Qle. lia.
Qed.

Hypothesis fuzz_ratio_bounded :
  forall a b similarity, fuzz_ratio a b = Some similarity ->
                         (similarity <= 100)%Z.

Lemma phrase_score_cases (fuzzy : bool) (text_lower phrase : str) (w : Z) :
  phrase_score fuzz_ratio fuzzy text_lower phrase w
    = base_score text_lower phrase w \/
  phrase_score fuzz_ratio fuzzy text_lower phrase w <= inject_Z (w + 5).
Proof.
  unfold phrase_score.
  destruct (_ && _)%bool; [|left; reflexivity].
  destruct (fuzz_ratio text_lower phrase) as [similarity|] eqn:E;
    [|left; reflexivity].
  destruct (85 <=? similarity)%Z; [|left; reflexivity].
  right. apply fuzz_ratio_bounded in E.
  rewrite inject_Z_plus. rewrite Zle_Qle in E.
  change (inject_Z 100) with 100 in E. change (inject_Z 5) with 5.
  assert (inject_Z similarity / 20 <= 5); [|lra].
  apply Qle_shift_div_r; lra.
Qed.

Lemma phrase_ok_forall (catalog : list (str * CommandData)) :
  catalog_ok catalog = true ->
  NoDup (catalog.*1) /\
  forall c data p, (c, data) ∈ catalog -> p ∈ phrases data ->
                   phrase_ok catalog c data p = true.
Proof.
  unfold catalog_ok. rewrite andb_true_iff, forallb_forall.
  intros [Hnd Hall]. split; [exact (bool_decide_eq_true_1 _ Hnd)|].
  intros c data p Hin Hp. apply list_elem_of_In in Hin, Hp.
  specialize (Hall _ Hin). rewrite forallb_forall in Hall.
  apply (Hall p Hp).
Qed.

(** On a catalog that passes [catalog_ok], a phrase that only one
    command lists is accepted as the exact candidate of that command. *)
Lemma catalog_ok_outcome (d : SmartVoiceDetector.t) (now : Q) (c : str)
    (data : CommandData) (p : str) :
  catalog_ok (wake_words d) = true ->
  (c, data) ∈ wake_words d -> p ∈ phrases data ->
  ~ now - last_execution_time d < cooldown_seconds d ->
  (forall c' data', (c', data') ∈ wake_words d -> p ∈ phrases data' ->
                    c' = c) ->
  detect fuzz_ratio d now p
  = (Matched (exact_candidate c data p),
     set_matcher (set_last_execution_time d now)
       (AdaptiveMatcher.record_success (adaptive_matcher d) c
          (inject_Z (weight data + 20)))).
Proof.
  intros Hok Hc Hp Hcool Huniq.
  destruct (phrase_ok_forall _ Hok) as [Hnd Hall].
  pose proof (Hall c data p Hc Hp) as Hchk. unfold phrase_ok in Hchk.
  rewrite !andb_true_iff in Hchk.
  destruct Hchk as [[[[[[Hv Hlow] Hstrip] Hsafe] Hw] _] Hheavy].
  apply Z.leb_le in Hw.
  apply bool_decide_eq_true_1 in Hlow, Hstrip.
  destruct (validate_and_sanitize p) as [s|] eqn:Ev; [|discriminate].
  apply bool_decide_eq_true_1 in Hv. subst s.
  apply exact_phrase_outcome; try assumption.
  intros c' data' p' Hc' Hp' Hne.
  assert (Hq : 0 < inject_Z (weight data + 20)).
  { change 0 with (inject_Z 0). rewrite <- Zlt_Qlt. lia. }
  rewrite forallb_forall in Hheavy.
  pose proof (Hheavy (c', data') (proj1 (list_elem_of_In _ _) Hc')) as Hh.
  cbn [snd] in Hh.
  destruct (phrase_score_cases (fuzzy_available d) p p' (weight data'))
    as [-> | Hfz].
  - destruct (weight data + 20 <=? weight data' + 10)%Z eqn:E.
    + apply andb_true_iff in Hh as [_ Hh]. rewrite forallb_forall in Hh.
      specialize (Hh p' (proj1 (list_elem_of_In _ _) Hp')).
      apply orb_true_iff in Hh as [Hh|Hh].
      * apply bool_decide_eq_true_1 in Hh. contradiction.
      * apply Qltb_lt, Hh.
    + apply Z.leb_gt in E.
      pose proof (Hall c' data' p' Hc' Hp') as Hchk'. unfold phrase_ok in Hchk'.
      rewrite !andb_true_iff in Hchk'.
      destruct Hchk' as [[_ Hlen] _]. apply Nat.leb_le in Hlen.
      destruct (base_score_bound p p' (weight data') Hne Hlen) as [-> | Hb];
        [exact Hq|].
      eapply Qle_lt_trans; [exact Hb|]. rewrite <- Zlt_Qlt. lia.
  - eapply Qle_lt_trans; [exact Hfz|]. rewrite <- Zlt_Qlt.
    destruct (weight data + 20 <=? weight data' + 10)%Z eqn:E.
    + apply andb_true_iff in Hh as [Hh _]. apply Z.ltb_lt in Hh. exact Hh.
    + apply Z.leb_gt in E. lia.
Qed.

(** On a catalog that passes [catalog_ok] the law of C4 holds as the
    spec states it. *)
Lemma catalog_ok_sound (d : SmartVoiceDetector.t) (now : Q) (c : str)
    (data : CommandData) (p : str) :
  catalog_ok (wake_words d) = true ->
  (c, data) ∈ wake_words d -> p ∈ phrases data ->
  ~ now - last_execution_time d < cooldown_seconds d ->
  (forall c' data', (c', data') ∈ wake_words d -> p ∈ phrases data' ->
                    c' = c) ->
  exists best,
    fst (detect fuzz_ratio d now p) = Matched best /\
    command best = c /\ phrase best = p /\
    score best = inject_Z (weight data + 20).
Proof.
  intros Hok Hc Hp Hcool Huniq. exists (exact_candidate c data p).
  rewrite (catalog_ok_outcome d now c data p Hok Hc Hp Hcool Huniq).
  repeat split.
Qed.

(** The catalog of scenario A passes the check. *)
Lemma scenario_A_catalog_ok : catalog_ok (wake_words scenario_A) = true.
Proof. vm_compute. reflexivity. Qed.

End Detection.

(** *** The statements at concrete inputs *)

Section Examples.
Local Open Scope Q_scope.
Import SmartVoiceDetector InputValidator Predicates Scenarios.

(** Three blanks at time 5 on the catalog of scenario A. *)
Lemma blank_input_rejected_witness :
  blank (py "   ") /\
  exists error,
    validate_and_sanitize (py "   ") = Refused error /\
    detect no_fuzz scenario_A 5 (py "   ") = (ValidationRejected error, scenario_A) /\
    returned (ValidationRejected error) = PyNone.
Proof.
  assert (H : blank (py "   ")) by (repeat constructor).
  split; [exact H|].
  exact (blank_input_rejected no_fuzz scenario_A 5 (py "   ") H).
Defined.

Lemma low_weight_scanned :
  scanned low_weight 100 (py "next page") (py "next page").
Proof.
  split; [reflexivity|]. split; [|vm_compute; lia].
  vm_compute. discriminate.
Qed.

Lemma low_weight_ranked :
  sort (strip (lower (py "next page")))
       (scan no_fuzz low_weight (strip (lower (py "next page"))))
  = [next_page_candidate].
Proof. vm_compute. reflexivity. Qed.

(** "next page" against a command of weight 5 with the phrase
    "next slide": the one candidate scores 6 and the result is
    [Unknown] with the description as suggestion. *)
Lemma decision_uses_fixed_threshold_witness :
  scanned low_weight 100 (py "next page") (py "next page") /\
  fst (detect no_fuzz low_weight 100 (py "next page"))
  = LowConfidence next_page_candidate (py "next page").
Proof.
  split; [exact low_weight_scanned|].
  pose proof (decision_uses_fixed_threshold no_fuzz low_weight 100
                (py "next page") (py "next page") next_page_candidate []
                low_weight_scanned low_weight_ranked) as (_ & H & _).
  apply H. vm_compute. reflexivity.
Defined.

(** C1 as stated fails there: the tracker's threshold for [next] is
    6.0 and the score 6 reaches it, yet the call returns [Unknown]. *)
Lemma adaptive_decision_counterexample :
  ~ adaptive_decision no_fuzz low_weight 100 (py "next page").
Proof.
  intros H.
  destruct (H (py "next page") next_page_candidate []
              low_weight_scanned low_weight_ranked)
    as (threshold & Hthr & Hiff & _).
  vm_compute in Hthr. injection Hthr as <-.
  assert (Hm : fst (detect no_fuzz low_weight 100 (py "next page"))
               = Matched next_page_candidate).
  { apply Hiff. vm_compute. discriminate. }
  vm_compute in Hm. discriminate.
Qed.

(** One second after an accepted "next slide", a second "next slide"
    ends at the cooldown gate and the timestamp stays at 100. *)
Lemma cooldown_gate_witness :
  last_execution_time after_next_slide == 100 /\
  101 - last_execution_time after_next_slide
    < cooldown_seconds after_next_slide /\
  detect no_fuzz after_next_slide 101 (py "next slide")
  = (CooldownActive, after_next_slide).
Proof.
  split; [vm_compute; reflexivity|].
  assert (Hc : 101 - last_execution_time after_next_slide
               < cooldown_seconds after_next_slide)
    by (vm_compute; reflexivity).
  split; [exact Hc|].
  destruct (cooldown_gate no_fuzz after_next_slide 101 (py "next slide"))
    as [H _].
  destruct (H Hc) as (Hd & _ & Ho).
  change (validate_and_sanitize (py "next slide"))
    with (Sanitized (py "next slide")) in Ho.
  rewrite <- Hd at 2. rewrite <- Ho. apply surjective_pairing.
Defined.

(** C3 as stated fails: one second after an accepted "next slide", an
    empty text is turned away by the validator, not by the cooldown
    gate. *)
Lemma cooldown_first_counterexample :
  ~ cooldown_first no_fuzz after_next_slide 101 (py "").
Proof.
  intros H. unfold cooldown_first in H.
  assert (Hc : 101 - last_execution_time after_next_slide
               < cooldown_seconds after_next_slide)
    by (vm_compute; reflexivity).
  specialize (H Hc). clear Hc. apply (f_equal fst) in H. vm_compute in H.
  discriminate H.
Qed.


(** It fails as well on a catalog with the weights 18 and 7: the
    phrase "open slide analytics" of [show_analytics] is listed by no
    other command, yet [detect] returns [open_slideshow], whose phrase
    "open slide" is contained in the text and scores 18 + 10 = 28
    against the exact score 7 + 20 = 27. *)
Lemma exact_phrase_law_shadowed : ~ exact_phrase_law no_fuzz shadowed.
Proof.
  intros H.
  destruct (H 100 (py "show_analytics")
              {| phrases := [py "open slide analytics"]; weight := 7;
                 description := py "Show session analytics" |}
              (py "open slide analytics"))
    as (best & Hbest & Hcmd & _).
  - right. left.
  - left.
  - vm_compute. discriminate.
  - intros c' data' Hin Hp.
    apply elem_of_cons in Hin as [Hin|Hin].
    + injection Hin as -> ->. apply list_elem_of_singleton in Hp.
      vm_compute in Hp. discriminate.
    + apply list_elem_of_singleton in Hin. injection Hin as -> _.
      reflexivity.
  - vm_compute in Hbest. injection Hbest as <-.
    vm_compute in Hcmd. discriminate.
Qed.

(** A phrase stored with capital letters alone in a catalog is never
    matched: the validator lowers the text, so the stored phrase never
    equals it. *)
Lemma exact_phrase_law_capitalised : ~ exact_phrase_law no_fuzz capitalised.
Proof.
  intros H.
  destruct (H 100 (py "stop")
              {| phrases := [py "Stop Program"]; weight := 15;
                 description := py "Stop program" |}
              (py "Stop Program"))
    as (best & Hbest & _).
  - left.
  - left.
  - vm_compute. discriminate.
  - intros c' data' Hin _. apply list_elem_of_singleton in Hin.
    injection Hin as -> _. reflexivity.
  - vm_compute in Hbest. discriminate.
Qed.


(** A failure recorded for "Nex " (key "nex") leaves the key "bak"
    without a record. *)
Lemma pronunciation_record_witness :
  AdaptiveMatcher.user_pronunciations
    (AdaptiveMatcher.record_failure (AdaptiveMatcher.init 6) 0 (py "Nex ") 5)
    !! py "bak"
  = AdaptiveMatcher.user_pronunciations (AdaptiveMatcher.init 6) !! py "bak".
Proof.
  destruct pronunciation_record_tracks_failures as [H _].
  destruct (H (AdaptiveMatcher.init 6) 0 (py "Nex ") 5) as [_ Hother].
  apply Hother. vm_compute. discriminate.
Defined.

End Examples.

(** ** The catalog built by [__init__] *)

Section Catalog.
Import SmartVoiceDetector Scenarios PhonemeVariants.

Lemma mem_true (x : str) (l : list str) : mem x l = true -> x ∈ l.
Proof. apply bool_decide_eq_true_1. Qed.

Lemma mem_false (x : str) (l : list str) : mem x l = false -> x ∉ l.
Proof. apply bool_decide_eq_false_1. Qed.

Lemma in_expansion_cons (seed : str) (seeds : list str) (p : str) :
  in_expansion (seed :: seeds) p <->
  p = seed \/
  (exists variants,
     (generate_variants seed = Some variants \/
      add_regional_variants seed (py "mixed") = Some variants) /\
     p ∈ variants /\ (2 <= length p)%nat) \/
  in_expansion seeds p.
Proof.
  unfold in_expansion. split.
  - intros [H|(sd & vs & Hsd & Hg & Hp & Hl)].
    + apply elem_of_cons in H as [H|H]; [left; exact H | right; right; left; exact H].
    + apply elem_of_cons in Hsd as [->|Hsd].
      * right. left. eauto.
      * right. right. right. eauto 10.
  - intros [->|[(vs & Hg & Hp & Hl)|[H|(sd & vs & Hsd & Hg & Hp & Hl)]]].
    + left. left.
    + right. exists seed, vs. split; [left|]. tauto.
    + left. right. exact H.
    + right. exists sd, vs. split; [right; exact Hsd|]. tauto.
Qed.

Lemma elem_of_long_enough (variants : list str) (p : str) :
  p ∈ List.filter (fun variant => Nat.leb 2 (length variant)) variants <->
  p ∈ variants /\ (2 <= length p)%nat.
Proof.
  rewrite !list_elem_of_In, filter_In, Nat.leb_le. reflexivity.
Qed.

Lemma expand_loop_elem (seeds expanded out : list str) :
  expand_loop seeds expanded = Some out ->
  forall p, p ∈ out <-> p ∈ expanded \/ in_expansion seeds p.
Proof.
  revert expanded. induction seeds as [|seed seeds IH]; intros expanded.
  - cbn [expand_loop]. intros [= <-] p. unfold in_expansion. split.
    + intros H. left. exact H.
    + intros [H|[H|(sd & vs & Hsd & _)]]; [exact H| |];
        exfalso; eapply elem_of_nil; eassumption.
  - cbn [expand_loop].
    destruct (generate_variants seed) as [variants|] eqn:Eg; [|discriminate].
    destruct (add_regional_variants seed (py "mixed")) as [regional|] eqn:Er;
      [|discriminate].
    intros Hout p. rewrite (IH _ Hout p), in_expansion_cons.
    rewrite !elem_of_app, !elem_of_long_enough, list_elem_of_singleton.
    split.
    + intros [[H|[H|[H|H]]]|H]; try tauto.
      * right. right. left. exists variants. tauto.
      * right. right. left. exists regional. tauto.
    + intros [H|[H|[(vs & [Hg|Hg] & Hp & Hl)|H]]]; try tauto.
      * assert (vs = variants) by congruence. subst vs. tauto.
      * assert (vs = regional) by congruence. subst vs. tauto.
Qed.

(** What [_expand_with_variants] returns holds exactly the expansion of
    its argument. *)
Lemma expand_with_variants_elem (seeds out : list str) :
  _expand_with_variants seeds = Some out ->
  forall p, p ∈ out <-> in_expansion seeds p.
Proof.
  unfold _expand_with_variants.
  destruct (expand_loop seeds []) as [expanded|] eqn:E; [|discriminate].
  intros H p. assert (out = list_set expanded) by congruence. subst out.
  unfold list_set. rewrite elem_of_remove_dups, (expand_loop_elem _ _ _ E p).
  split; [|tauto]. intros [H0|H0]; [|exact H0].
  exfalso. eapply elem_of_nil. exact H0.
Qed.

(** It returns whenever every seed has a token. *)
Lemma expand_loop_returns (seeds expanded : list str) :
  Forall (fun seed => split (lower seed) <> []) seeds ->
  exists out, expand_loop seeds expanded = Some out.
Proof.
  intros H. revert expanded.
  induction H as [|seed seeds Hseed _ IH]; intros expanded.
  - eexists. reflexivity.
  - cbn [expand_loop].
    destruct (variants_when_returned seed (py "mixed") Hseed)
      as (variants & regional & -> & -> & _).
    apply IH.
Qed.

Lemma expand_with_variants_returns (seeds : list str) :
  Forall (fun seed => split (lower seed) <> []) seeds ->
  exists out, _expand_with_variants seeds = Some out.
Proof.
  intros H. unfold _expand_with_variants.
  destruct (expand_loop_returns seeds [] H) as [out ->]. eauto.
Qed.

Lemma seeds_have_tokens :
  Forall (fun seed => split (lower seed) <> []) next_seeds /\
  Forall (fun seed => split (lower seed) <> []) previous_seeds.
Proof.
  split; repeat constructor; vm_compute; discriminate.
Qed.

Ltac literal_entry :=
  eexists; split; [vm_compute; reflexivity|];
  match goal with
  | |- if ?b then _ else _ =>
      let v := eval vm_compute in b in change b with v
  end; cbv iota.

(** C2 (amended).  [__init__] builds its catalog without raising; the
    phrase sets of [next] and [previous] are their seeded phrases
    united with the generated and the regional variants of at least two
    characters, and every other command keeps its written phrase list
    as it is, unexpanded. *)
Theorem wake_words_phrase_sets :
  exists catalog,
    build_wake_words = Some catalog /\
    (forall fuzzy sink, exists d,
       SmartVoiceDetector.init fuzzy sink = Some d /\ wake_words d = catalog) /\
    forall c data, (c, data) ∈ catalog ->
      exists seeds,
        lookup_table c seeded_phrases = Some seeds /\
        if mem c expanded_commands
        then forall p, p ∈ phrases data <-> in_expansion seeds p
        else phrases data = seeds.
Proof.
  destruct seeds_have_tokens as [Hn Hp].
  destruct (expand_with_variants_returns next_seeds Hn) as [next_phrases En].
  destruct (expand_with_variants_returns previous_seeds Hp)
    as [previous_phrases Ep].
  unfold SmartVoiceDetector.init, build_wake_words. rewrite En, Ep.
  eexists. split; [reflexivity|]. split.
  { intros fuzzy sink. eexists. split; reflexivity. }
  intros c data Hin. unfold entry in Hin.
  repeat (apply elem_of_cons in Hin as [Hin|Hin]);
    try (apply elem_of_nil in Hin; destruct Hin);
    injection Hin as -> ->; cbn [phrases]; literal_entry;
    try reflexivity.
  - apply expand_with_variants_elem, En.
  - apply expand_with_variants_elem, Ep.
Qed.

(** C2 as stated fails for [open_slideshow]: "opin slide show" is a
    generated variant of its seed "open slide show" but not one of its
    phrases. *)
Lemma all_commands_expanded_counterexample :
  ~ exists catalog,
      build_wake_words = Some catalog /\ all_commands_expanded catalog.
Proof.
  intros (catalog & Hb & Hall). unfold build_wake_words in Hb.
  destruct (_expand_with_variants next_seeds) as [next_phrases|];
    [|discriminate].
  destruct (_expand_with_variants previous_seeds) as [previous_phrases|];
    [|discriminate].
  assert (Hin : entry "open_slideshow" open_slideshow_phrases 18
                  "Buka slideshow (F5)" ∈ catalog).
  { assert (Hc : Some catalog = Some catalog) by reflexivity.
    rewrite <- Hb in Hc at 1. injection Hc as <-.
    right. right. left. }
  destruct (Hall _ _ Hin) as (seeds & Hseeds & Hiff).
  assert (seeds = open_slideshow_phrases).
  { vm_compute in Hseeds. vm_compute. congruence. }
  subst seeds. cbn [phrases] in Hiff.
  assert (Hnot : py "opin slide show" ∉ open_slideshow_phrases).
  { apply mem_false. vm_compute. reflexivity. }
  apply Hnot, Hiff. right.
  exists (py "open slide show").
  eexists. split; [left|].
  split; [left; vm_compute; reflexivity|].
  split; [|vm_compute; lia].
  apply mem_true. vm_compute. reflexivity.
Qed.

End Catalog.

(** ** What a call of [detect] does to the detector *)

Section Exits.
Local Open Scope Q_scope.
Import SmartVoiceDetector InputValidator Predicates Scenarios.

Variable fuzz_ratio : str -> str -> option Z.

Lemma sort_nil (text_lower : str) (l : list Candidate) :
  sort text_lower l = [] -> l = [].
Proof.
  intros H. pose proof (sort_perm text_lower l) as Hp. rewrite H in Hp.
  apply Permutation_nil in Hp. exact Hp.
Qed.

Lemma decide_command_exit (d : SmartVoiceDetector.t) (now : Q) (s : str) :
  exit_of fuzz_ratio d now s (fst (decide_command fuzz_ratio d now s))
                  (snd (decide_command fuzz_ratio d now s)).
Proof.
  unfold decide_command.
  destruct (match s with [] => true | _ => _ end); [reflexivity|].
  destruct (sort _ _) as [|best rest] eqn:Es.
  { cbn. split; [reflexivity|]. split; [|reflexivity].
    eapply sort_nil. exact Es. }
  unfold min_score_threshold.
  destruct (Qle_bool 8 (score best)) eqn:E8.
  - apply Qle_bool_iff in E8.
    destruct (validate_command (command best)) eqn:Ev; cbn.
    + split; [eauto|]. split; [exact E8|]. split; [exact Ev | reflexivity].
    + split; [reflexivity|]. split; [eauto|]. split; [exact E8 | exact Ev].
  - cbn. split; [reflexivity|]. split; [eauto|]. split; [|reflexivity].
    apply Qnot_le_lt. intros Hle. apply Qle_bool_iff in Hle. congruence.
Qed.

(** The same for [detect]: the two early exits, or an exit of
    [decide_command] on the sanitized text outside the cooldown
    window. *)
Lemma detect_exit (d : SmartVoiceDetector.t) (now : Q) (text : str) :
  let o := fst (detect fuzz_ratio d now text) in
  let d' := snd (detect fuzz_ratio d now text) in
  (exists error, validate_and_sanitize text = Refused error /\
                 o = ValidationRejected error /\ d' = d) \/
  (exists s, validate_and_sanitize text = Sanitized s /\
             now - last_execution_time d < cooldown_seconds d /\
             o = CooldownActive /\ d' = d) \/
  (exists s, validate_and_sanitize text = Sanitized s /\
             ~ now - last_execution_time d < cooldown_seconds d /\
             exit_of fuzz_ratio d now s o d').
Proof.
  unfold detect. destruct (validate_and_sanitize text) as [s|error].
  - destruct (AdaptiveMatcher.Qltb _ _) eqn:E.
    + right. left. exists s. apply Qltb_lt in E. repeat split. exact E.
    + right. right. exists s. split; [reflexivity|]. split.
      * apply Qltb_ge in E. lra.
      * apply decide_command_exit.
  - left. exists error. repeat split.
Qed.

Ltac exits d now text o d' H :=
  pose proof (detect_exit d now text) as H; cbv zeta in H;
  destruct (detect fuzz_ratio d now text) as [o d']; cbn [fst snd] in *.

Lemma save_frame (d : SmartVoiceDetector.t) (now : Q) (u : str)
    (c : option str) (q : Q) (sg : option str) :
  let d1 := _save_unrecognized_command d now u c q sg in
  wake_words d1 = wake_words d /\
  cooldown_seconds d1 = cooldown_seconds d /\
  fuzzy_available d1 = fuzzy_available d /\
  sink_writable d1 = sink_writable d /\
  adaptive_matcher d1 = adaptive_matcher d /\
  last_execution_time d1 = last_execution_time d.
Proof.
  unfold _save_unrecognized_command. destruct (sink_writable d) eqn:E;
    cbn; rewrite ?E; repeat split.
Qed.

(** X1.  No call of [detect] changes the catalog, the cooldown length,
    the fuzzy flag or the base and current threshold of the tracker. *)
Theorem detect_keeps_settings (d : SmartVoiceDetector.t) (now : Q)
    (text : str) :
  let d' := snd (detect fuzz_ratio d now text) in
  wake_words d' = wake_words d /\
  cooldown_seconds d' = cooldown_seconds d /\
  fuzzy_available d' = fuzzy_available d /\
  AdaptiveMatcher.base_threshold (adaptive_matcher d')
    = AdaptiveMatcher.base_threshold (adaptive_matcher d) /\
  AdaptiveMatcher.current_threshold (adaptive_matcher d')
    = AdaptiveMatcher.current_threshold (adaptive_matcher d).
Proof.
  exits d now text o d' H.
  destruct H as [(e & _ & _ & ->)|[(s & _ & _ & _ & ->)|(s & _ & _ & H)]];
    [repeat split.. |].
  destruct o; cbn in H; try contradiction.
  - subst d'. repeat split.
  - destruct H as (_ & _ & ->).
    destruct (save_frame d now (strip (lower s)) None 0 None)
      as (-> & -> & -> & _ & -> & _).
    repeat split.
  - destruct H as (-> & _). repeat split.
  - destruct H as (_ & _ & _ & ->). repeat split.
  - destruct H as (_ & _ & _ & ->). cbn.
    destruct (save_frame d now (strip (lower s))
                (Some (command best_match)) (score best_match)
                (Some (cand_description best_match)))
      as (-> & -> & -> & _ & -> & _).
    repeat split.
Qed.

(** X2.  Whenever [detect] hands back [None], the detector is exactly
    as before the call. *)
Theorem none_leaves_detector_unchanged (d : SmartVoiceDetector.t) (now : Q)
    (text : str) :
  returned (fst (detect fuzz_ratio d now text)) = PyNone ->
  snd (detect fuzz_ratio d now text) = d.
Proof.
  exits d now text o d' H. intros Hr.
  destruct H as [(e & _ & _ & ->)|[(s & _ & _ & _ & ->)|(s & _ & _ & H)]];
    [reflexivity.. |].
  destruct o; cbn in H, Hr; try contradiction; try discriminate.
  - exact H.
  - apply H.
Qed.

(** X3.  A [Matched] result names a command of [SAFE_COMMANDS] that is
    in the catalog, with one of that command's phrases, a score of at
    least 8, [max_score] = weight + 20 and the command's description. *)
Theorem matched_is_sound (d : SmartVoiceDetector.t) (now : Q) (text : str)
    (best : Candidate) :
  fst (detect fuzz_ratio d now text) = Matched best ->
  validate_command (command best) = true /\
  8 <= score best /\
  exists data,
    (command best, data) ∈ wake_words d /\
    phrase best ∈ phrases data /\
    max_score best = (weight data + 20)%Z /\
    cand_description best = description data.
Proof.
  exits d now text o d' H. intros ->.
  destruct H as [(e & _ & He & _)|[(s & _ & _ & He & _)|(s & _ & _ & H)]];
    try discriminate.
  cbn in H. destruct H as ((rest & Hsort) & H8 & Hsafe & _).
  split; [exact Hsafe|]. split; [exact H8|].
  destruct (sort_head _ _ _ _ Hsort) as [Hin _].
  apply scan_elem in Hin as (c & data & Hc & Hp & _ & Hx).
  exists data.
  assert (Hcmd : command best = c) by (rewrite Hx; reflexivity).
  assert (Hmax : max_score best = (weight data + 20)%Z)
    by (rewrite Hx; reflexivity).
  assert (Hdesc : cand_description best = description data)
    by (rewrite Hx; reflexivity).
  rewrite Hcmd. repeat split; assumption.
Qed.

(** X4.  After a [Matched] result the cooldown timestamp is the time of
    the call, the score has entered the success window, the command's
    frequency count has grown by one, and neither the failure window,
    the pronunciation records nor the unrecognised-commands file have
    changed. *)
Theorem matched_updates_state (d : SmartVoiceDetector.t) (now : Q)
    (text : str) (best : Candidate) :
  fst (detect fuzz_ratio d now text) = Matched best ->
  let d' := snd (detect fuzz_ratio d now text) in
  let m := adaptive_matcher d in
  let m' := adaptive_matcher d' in
  last_execution_time d' = now /\
  AdaptiveMatcher.recent_successes m'
    = AdaptiveMatcher.deque_append (AdaptiveMatcher.recent_successes m)
        (score best) /\
  AdaptiveMatcher.command_frequency m' !! command best
    = Some (default 0%Z (AdaptiveMatcher.command_frequency m !! command best)
            + 1)%Z /\
  AdaptiveMatcher.recent_failures m' = AdaptiveMatcher.recent_failures m /\
  AdaptiveMatcher.user_pronunciations m'
    = AdaptiveMatcher.user_pronunciations m /\
  unrecognized_commands d' = unrecognized_commands d.
Proof.
  exits d now text o d' H. intros ->.
  destruct H as [(e & _ & He & _)|[(s & _ & _ & He & _)|(s & _ & _ & H)]];
    try discriminate.
  cbn in H. destruct H as (_ & _ & _ & ->). cbn.
  rewrite lookup_insert_eq. repeat split.
Qed.

(** X5.  The candidate [detect] accepts, or suggests with low
    confidence, has the highest score of all candidates of the scan. *)
Theorem best_match_has_highest_score (d : SmartVoiceDetector.t) (now : Q)
    (text : str) (best : Candidate) :
  fst (detect fuzz_ratio d now text) = Matched best \/
  (exists u, fst (detect fuzz_ratio d now text) = LowConfidence best u) ->
  exists s,
    validate_and_sanitize text = Sanitized s /\
    best ∈ scan fuzz_ratio d (strip (lower s)) /\
    forall y, y ∈ scan fuzz_ratio d (strip (lower s)) ->
              score y <= score best.
Proof.
  exits d now text o d' H. intros Ho.
  assert (Hs : exists s rest,
             validate_and_sanitize text = Sanitized s /\
             sort (strip (lower s)) (scan fuzz_ratio d (strip (lower s)))
             = best :: rest).
  { destruct H as [(e & _ & He & _)|[(s & _ & _ & He & _)|(s & Hv & _ & H)]].
    - destruct Ho as [Ho|[u Ho]]; congruence.
    - destruct Ho as [Ho|[u Ho]]; congruence.
    - destruct Ho as [->|[u ->]]; cbn in H.
      + destruct H as ((rest & Hsort) & _). eauto.
      + destruct H as (_ & (rest & Hsort) & _). eauto. }
  destruct Hs as (s & rest & Hv & Hsort). exists s. split; [exact Hv|].
  destruct (sort_head _ _ _ _ Hsort) as [Hin Hmin]. split; [exact Hin|].
  intros y Hy. specialize (Hmin y Hy).
  apply Qnot_lt_le. intros Hlt. apply Hmin.
  unfold key_less, sort_key. cbn [fst snd]. left. lra.
Qed.

(** X6.  The unrecognised-commands file only grows: a call appends
    exactly one record, holding the text of the [Unknown] result, when
    it returns [Unknown] and the file can be written; in every other
    case the file is untouched. *)
Theorem sink_grows_by_unknowns (d : SmartVoiceDetector.t) (now : Q)
    (text : str) :
  let o := fst (detect fuzz_ratio d now text) in
  let d' := snd (detect fuzz_ratio d now text) in
  if (sink_writable d && is_unknown o)%bool
  then exists e sc sg,
         unrecognized_commands d' = unrecognized_commands d ++ [e] /\
         returned o = Unknown sc sg (user_input e)
  else unrecognized_commands d' = unrecognized_commands d.
Proof.
  exits d now text o d' H.
  destruct H as [(e & _ & -> & ->)|[(s & _ & _ & -> & ->)|(s & _ & _ & H)]].
  - rewrite andb_false_r. reflexivity.
  - rewrite andb_false_r. reflexivity.
  - destruct o; cbn in H; try contradiction; cbn [is_unknown];
      rewrite ?andb_false_r, ?andb_true_r.
    + subst d'. reflexivity.
    + destruct H as (-> & _ & ->). unfold _save_unrecognized_command.
      destruct (sink_writable d); [|reflexivity].
      eexists _, _, _. cbn. repeat split.
    + destruct H as (-> & _). reflexivity.
    + destruct H as (_ & _ & _ & ->). reflexivity.
    + destruct H as (-> & _ & _ & ->). unfold _save_unrecognized_command.
      destruct (sink_writable d); [|reflexivity].
      eexists _, _, _. cbn. repeat split.
Qed.

(** X7.  The decision does not depend on the unrecognised-commands
    file: with any other file content, writable or not, [detect]
    returns the same result and leaves the same tracker and cooldown
    timestamp. *)
Theorem decision_ignores_sink (d : SmartVoiceDetector.t) (now : Q)
    (text : str) (sink : list Unrecognized) (writable : bool) :
  let r := detect fuzz_ratio d now text in
  let r' := detect fuzz_ratio (with_sink d sink writable) now text in
  fst r' = fst r /\
  adaptive_matcher (snd r') = adaptive_matcher (snd r) /\
  last_execution_time (snd r') = last_execution_time (snd r).
Proof.
  unfold detect. destruct (validate_and_sanitize text) as [s|error];
    [|repeat split].
  cbn [with_sink last_execution_time cooldown_seconds].
  destruct (AdaptiveMatcher.Qltb _ _); [repeat split|].
  unfold decide_command.
  destruct (match s with [] => true | _ => _ end); [repeat split|].
  change (scan fuzz_ratio (with_sink d sink writable) (strip (lower s)))
    with (scan fuzz_ratio d (strip (lower s))).
  destruct (sort _ _) as [|best rest].
  { unfold _save_unrecognized_command. cbn.
    destruct writable, (sink_writable d); repeat split. }
  destruct (Qle_bool _ _).
  - destruct (negb _); repeat split.
  - unfold _save_unrecognized_command. cbn.
    destruct writable, (sink_writable d); repeat split.
Qed.

(** *** Scores and thresholds *)

Lemma inject_Z_le (a b : Z) : (a <= b)%Z -> inject_Z a <= inject_Z b.
Proof. intros H. rewrite <- Zle_Qle. exact H. Qed.

Lemma base_score_values (text_lower phrase : str) (w : Z) :
  base_score text_lower phrase w = 0 \/
  exists k, base_score text_lower phrase w = inject_Z (w + k) /\
            (1 <= k)%Z /\
            (k <= Z.max 20 (3 * Z.of_nat (length (split phrase))))%Z.
Proof.
  unfold base_score.
  destruct (str_eqb phrase text_lower); [right; exists 20%Z; split; [reflexivity|lia]|].
  destruct (contains phrase text_lower); [right; exists 10%Z; split; [reflexivity|lia]|].
  pose proof (matching_words_length text_lower phrase) as Hm.
  destruct (Nat.leb 2 _) eqn:E.
  - apply Nat.leb_le in E. right. eexists. split; [reflexivity|]. lia.
  - destruct (_ && _)%bool; [|left; reflexivity].
    right. exists 1%Z. split; [reflexivity|lia].
Qed.

(** With a weight of at least 7, a positive score is at least 8. *)
Lemma positive_score_reaches_threshold (fuzzy : bool)
    (text_lower phrase : str) (w : Z) :
  (7 <= w)%Z ->
  0 < phrase_score fuzz_ratio fuzzy text_lower phrase w ->
  8 <= phrase_score fuzz_ratio fuzzy text_lower phrase w.
Proof.
  intros Hw. unfold phrase_score.
  assert (Hb : 0 < base_score text_lower phrase w ->
               8 <= base_score text_lower phrase w).
  { destruct (base_score_values text_lower phrase w) as [->|(k & -> & Hk & _)].
    - intros H. lra.
    - intros _. change 8 with (inject_Z 8). apply inject_Z_le. lia. }
  destruct (_ && _)%bool; [|exact Hb].
  destruct (fuzz_ratio text_lower phrase) as [similarity|]; [|exact Hb].
  destruct (85 <=? similarity)%Z eqn:E; [|exact Hb].
  intros _. apply Z.leb_le in E.
  assert (H7 : 7 <= inject_Z w) by (change 7 with (inject_Z 7); apply inject_Z_le, Hw).
  assert (H85 : 85 <= inject_Z similarity)
    by (change 85 with (inject_Z 85); apply inject_Z_le, E).
  assert (1 <= inject_Z similarity / 20); [|lra].
  apply Qle_shift_div_l; lra.
Qed.

(** A low-confidence result names a command whose weight is below 7:
    with a weight of 7 or more every positive score reaches 8. *)
Lemma low_confidence_light (d : SmartVoiceDetector.t) (now : Q) (text : str)
    (best : Candidate) (u : str) :
  fst (detect fuzz_ratio d now text) = LowConfidence best u ->
  exists data, (command best, data) ∈ wake_words d /\ (weight data < 7)%Z.
Proof.
  intros Ho. pose proof (detect_exit d now text) as H.
  cbv zeta in H. rewrite Ho in H.
  destruct H as [(e & _ & He & _)|[(s & _ & _ & He & _)|(s & _ & _ & H)]];
    try discriminate.
  cbn in H. destruct H as (_ & (rest & Hsort) & Hlt & _).
  destruct (sort_head _ _ _ _ Hsort) as [Hin _].
  apply scan_elem in Hin as (c & data & Hc & _ & Hpos & Hx).
  exists data. assert (Hcmd : command best = c) by (rewrite Hx; reflexivity).
  rewrite Hcmd. split; [exact Hc|].
  destruct (Z_lt_le_dec (weight data) 7) as [Hw|Hw]; [exact Hw|].
  exfalso. rewrite Hx in Hpos, Hlt. cbn [score] in Hpos, Hlt.
  pose proof (positive_score_reaches_threshold _ _ _ _ Hw Hpos). lra.
Qed.

(** A result refused by the command validation names a command of the
    catalog that is not one of [SAFE_COMMANDS]. *)
Lemma rejected_not_safe (d : SmartVoiceDetector.t) (now : Q) (text : str)
    (best : Candidate) :
  fst (detect fuzz_ratio d now text) = CommandRejected best ->
  exists data, (command best, data) ∈ wake_words d /\
               validate_command (command best) = false.
Proof.
  intros Ho. pose proof (detect_exit d now text) as H.
  cbv zeta in H. rewrite Ho in H.
  destruct H as [(e & _ & He & _)|[(s & _ & _ & He & _)|(s & _ & _ & H)]];
    try discriminate.
  cbn in H. destruct H as (_ & (rest & Hsort) & _ & Hbad).
  destruct (sort_head _ _ _ _ Hsort) as [Hin _].
  apply scan_elem in Hin as (c & data & Hc & _ & _ & Hx).
  exists data. assert (Hcmd : command best = c) by (rewrite Hx; reflexivity).
  rewrite Hcmd in *. split; [exact Hc | exact Hbad].
Qed.

(** X8.  On a catalog whose weights are all at least 7, every candidate
    scores at least 8: [detect] never returns the low-confidence
    [Unknown], never records a failure, and so leaves the failure
    window and the pronunciation records of the tracker as they are. *)
Theorem heavy_catalog_never_low_confidence (d : SmartVoiceDetector.t)
    (now : Q) (text : str) :
  (forall c data, (c, data) ∈ wake_words d -> (7 <= weight data)%Z) ->
  let o := fst (detect fuzz_ratio d now text) in
  let m' := adaptive_matcher (snd (detect fuzz_ratio d now text)) in
  (forall best u, o <> LowConfidence best u) /\
  AdaptiveMatcher.recent_failures m'
    = AdaptiveMatcher.recent_failures (adaptive_matcher d) /\
  AdaptiveMatcher.user_pronunciations m'
    = AdaptiveMatcher.user_pronunciations (adaptive_matcher d).
Proof.
  intros Hw.
  assert (Hno : forall best u,
             fst (detect fuzz_ratio d now text) <> LowConfidence best u).
  { intros best u Ho.
    destruct (low_confidence_light d now text best u Ho) as (data & Hc & Hlt).
    specialize (Hw _ _ Hc). lia. }
  exits d now text o d' H.
  destruct H as [(e & _ & -> & ->)|[(s & _ & _ & -> & ->)|(s & _ & _ & H)]];
    [repeat split; discriminate.. |].
  destruct o; cbn in H; try contradiction.
  - subst d'. repeat split; discriminate.
  - destruct H as (_ & _ & ->). unfold _save_unrecognized_command.
    destruct (sink_writable d); repeat split; discriminate.
  - destruct H as (-> & _). repeat split; discriminate.
  - destruct H as (_ & _ & _ & ->). repeat split; discriminate.
  - exfalso. exact (Hno _ _ eq_refl).
Qed.

(** X9.  Every candidate of the scan has a positive score; if its
    phrase has at most six words and the fuzzy ratio never exceeds 100,
    the score does not exceed [max_score] = weight + 20. *)
Theorem candidate_scores_bounded (d : SmartVoiceDetector.t)
    (text_lower : str) (x : Candidate) :
  (forall a b similarity, fuzz_ratio a b = Some similarity ->
                          (similarity <= 100)%Z) ->
  x ∈ scan fuzz_ratio d text_lower ->
  0 < score x /\
  ((length (split (phrase x)) <= 6)%nat -> score x <= inject_Z (max_score x)).
Proof.
  intros Hfz Hin. apply scan_elem in Hin as (c & data & _ & _ & Hpos & Hx).
  split; [exact Hpos|]. intros Hlen. rewrite Hx. cbn [score max_score].
  destruct (phrase_score_cases fuzz_ratio Hfz (fuzzy_available d) text_lower
              (phrase x) (weight data)) as [-> | Hle].
  - destruct (base_score_values text_lower (phrase x) (weight data))
      as [E|(k & -> & _ & Hk)].
    + rewrite Hx in Hpos. cbn [score] in Hpos.
      destruct (phrase_score_cases fuzz_ratio Hfz (fuzzy_available d)
                  text_lower (phrase x) (weight data)) as [E'|Hle'].
      * rewrite E', E in Hpos. lra.
      * rewrite E. eapply Qle_trans; [apply Qlt_le_weak, Hpos|].
        eapply Qle_trans; [exact Hle'|]. apply inject_Z_le. lia.
    + apply inject_Z_le. lia.
  - eapply Qle_trans; [exact Hle|]. apply inject_Z_le. lia.
Qed.

Lemma init_returns (fuzzy : bool) (sink : list Unrecognized) :
  exists d, SmartVoiceDetector.init fuzzy sink = Some d.
Proof.
  destruct seeds_have_tokens as [Hn Hp].
  destruct (expand_with_variants_returns next_seeds Hn) as [np En].
  destruct (expand_with_variants_returns previous_seeds Hp) as [pp Ep].
  unfold SmartVoiceDetector.init, build_wake_words. rewrite En, Ep. eauto.
Qed.

(** In the catalog [__init__] builds, every weight is at least 7 and
    every command is one of [SAFE_COMMANDS]. *)
Lemma shipped_weights_and_names (fuzzy : bool) (sink : list Unrecognized)
    (d0 : SmartVoiceDetector.t) :
  SmartVoiceDetector.init fuzzy sink = Some d0 ->
  forall c data, (c, data) ∈ wake_words d0 ->
                 (7 <= weight data)%Z /\ validate_command c = true.
Proof.
  unfold SmartVoiceDetector.init, build_wake_words.
  destruct (_expand_with_variants next_seeds) as [np|]; [|discriminate].
  destruct (_expand_with_variants previous_seeds) as [pp|]; [|discriminate].
  intros H. assert (Hd : wake_words d0 = wake_words d0) by reflexivity.
  assert (Hs : Some d0 = Some d0) by reflexivity.
  rewrite <- H in Hs at 1. injection Hs as <-. cbn [wake_words].
  intros c data Hin. unfold entry in Hin.
  repeat (apply elem_of_cons in Hin as [Hin|Hin]);
    try (apply elem_of_nil in Hin; destruct Hin);
    injection Hin as -> ->; cbn [weight]; (split; [lia | vm_compute; reflexivity]).
Qed.

(** X10.  On the detector [__init__] builds, in any later state with
    the same catalog, a call of [detect] never ends in the
    low-confidence [Unknown] nor in the command-validation exit: it
    returns [None] (validation, cooldown, too short), the no-match
    [Unknown], or [Matched]. *)
Theorem shipped_detector_exits (fuzzy : bool) (sink : list Unrecognized)
    (d0 d : SmartVoiceDetector.t) (now : Q) (text : str) :
  SmartVoiceDetector.init fuzzy sink = Some d0 ->
  wake_words d = wake_words d0 ->
  match fst (detect fuzz_ratio d now text) with
  | LowConfidence _ _ | CommandRejected _ => False
  | _ => True
  end.
Proof.
  intros Hinit Hcat.
  pose proof (shipped_weights_and_names fuzzy sink d0 Hinit) as Hall.
  rewrite <- Hcat in Hall.
  destruct (fst (detect fuzz_ratio d now text)) as [| | | |best|best|best u]
    eqn:Ho; try exact I.
  - destruct (rejected_not_safe d now text best Ho) as (data & Hc & Hbad).
    destruct (Hall _ _ Hc) as [_ Hsafe]. congruence.
  - destruct (low_confidence_light d now text best u Ho) as (data & Hc & Hlt).
    destruct (Hall _ _ Hc) as [Hw _]. lia.
Qed.

(** What [__init__] returns, field by field. *)
Lemma init_fields (fuzzy : bool) (sink : list Unrecognized)
    (d0 : SmartVoiceDetector.t) :
  SmartVoiceDetector.init fuzzy sink = Some d0 ->
  build_wake_words = Some (wake_words d0) /\
  last_execution_time d0 = 0 /\ cooldown_seconds d0 = 2 /\
  fuzzy_available d0 = fuzzy /\
  adaptive_matcher d0 = AdaptiveMatcher.init 6 /\
  unrecognized_commands d0 = sink /\ sink_writable d0 = true.
Proof.
  unfold SmartVoiceDetector.init.
  destruct build_wake_words as [catalog|]; [|discriminate].
  intros H. assert (Hs : Some d0 = Some d0) by reflexivity.
  rewrite <- H in Hs at 1. injection Hs as <-. repeat split.
Qed.

End Exits.

(** ** The tracker over a history of outcomes *)

Section History.
Local Open Scope Q_scope.
Import AdaptiveMatcher Predicates.

Lemma tl_skipn {A} (k : nat) (l : list A) : List.tl (skipn k l) = skipn (S k) l.
Proof.
  revert l. induction k as [|k IH]; intros [|x l]; try reflexivity.
  cbn [skipn]. rewrite IH. reflexivity.
Qed.

(** Appending to a full window drops its oldest entry: the window of
    the last ten entries slides by one. *)
Lemma deque_append_last (l : list Q) (x : Q) :
  deque_append (last_entries 10 l) x = last_entries 10 (l ++ [x]).
Proof.
  unfold deque_append, last_entries.
  rewrite !length_app, length_skipn. cbn [length].
  destruct (le_lt_dec 10 (length l)) as [Hge|Hlt].
  - replace (Nat.ltb 10 (length l - (length l - 10) + 1)) with true
      by (symmetry; apply Nat.ltb_lt; lia).
    replace (length l + 1 - 10)%nat with (S (length l - 10)) by lia.
    rewrite skipn_app.
    replace (S (length l - 10) - length l)%nat with 0%nat by lia.
    cbn [skipn]. rewrite <- tl_skipn.
    destruct (skipn (length l - 10) l) as [|y r] eqn:E; [|reflexivity].
    apply (f_equal (@length Q)) in E. rewrite length_skipn in E.
    cbn in E. lia.
  - replace (Nat.ltb 10 (length l - (length l - 10) + 1)) with false
      by (symmetry; apply Nat.ltb_ge; lia).
    replace (length l - 10)%nat with 0%nat by lia.
    replace (length l + 1 - 10)%nat with 0%nat by lia.
    reflexivity.
Qed.

Lemma fold_record_windows (history : list outcome) (m : t)
    (successes failures : list Q) :
  recent_successes m = last_entries 10 successes ->
  recent_failures m = last_entries 10 failures ->
  recent_successes (fold_left record history m)
    = last_entries 10 (successes ++ success_scores history) /\
  recent_failures (fold_left record history m)
    = last_entries 10 (failures ++ failure_scores history).
Proof.
  revert m successes failures.
  induction history as [|o h IH]; intros m ss fs Hs Hf.
  - cbn. rewrite !app_nil_r. split; assumption.
  - cbn [fold_left success_scores failure_scores flat_map].
    destruct o as [c sc|now text sc]; cbn [record].
    + destruct (IH (record_success m c sc) (ss ++ [sc]) fs) as [H1 H2].
      * cbn. rewrite Hs. apply deque_append_last.
      * exact Hf.
      * rewrite <- app_assoc in H1. split; assumption.
    + destruct (IH (record_failure m now text sc) ss (fs ++ [sc])) as [H1 H2].
      * exact Hs.
      * cbn. rewrite Hf. apply deque_append_last.
      * rewrite <- app_assoc in H2. split; assumption.
Qed.

(** X11.  After any history of recorded outcomes on a fresh tracker,
    the success window holds the last ten success scores and the
    failure window the last ten failure scores, oldest first; neither
    ever holds more than ten. *)
Theorem windows_hold_last_ten (base : Q) (history : list outcome) :
  let m := replay base history in
  recent_successes m = last_entries 10 (success_scores history) /\
  recent_failures m = last_entries 10 (failure_scores history) /\
  (length (recent_successes m) <= 10)%nat /\
  (length (recent_failures m) <= 10)%nat.
Proof.
  intros m. subst m. unfold replay.
  destruct (fold_record_windows history (init base) [] []) as [H1 H2];
    [reflexivity | reflexivity |].
  cbn [app] in H1, H2. rewrite H1, H2. unfold last_entries.
  rewrite !length_skipn. repeat split; lia.
Qed.

Lemma fold_record_frequency (c : str) (history : list outcome) (m : t) :
  default 0%Z (command_frequency (fold_left record history m) !! c)
  = (default 0%Z (command_frequency m !! c)
     + Z.of_nat (successes_of c history))%Z /\
  (command_frequency (fold_left record history m) !! c = None <->
   command_frequency m !! c = None /\ successes_of c history = 0%nat).
Proof.
  revert m. induction history as [|o h IH]; intros m.
  - cbn. split; [lia | tauto].
  - cbn [fold_left]. destruct (IH (record m o)) as [IH1 IH2].
    rewrite IH1, IH2. unfold successes_of. cbn [List.filter].
    destruct o as [c' sc|now text sc]; cbn [record].
    + unfold str_eqb. cbn [command_frequency record_success].
      destruct (decide (c' = c)) as [->|Hne].
      * rewrite bool_decide_eq_true_2 by reflexivity.
        rewrite lookup_insert_eq. cbn [default length]. unfold id.
        split; [lia|].
        split; [intros [H _]; discriminate | intros [_ H]; discriminate].
      * rewrite bool_decide_eq_false_2 by exact Hne.
        rewrite lookup_insert_ne by exact Hne. split; [lia | tauto].
    + cbn [command_frequency record_failure]. split; [lia | tauto].
Qed.

(** X12.  After any history on a fresh tracker, the frequency stored
    for a command is the number of successes recorded for it; a command
    without success has no entry. *)
Theorem frequency_counts_successes (base : Q) (c : str)
    (history : list outcome) :
  command_frequency (replay base history) !! c
  = match successes_of c history with
    | O => None
    | S n => Some (Z.of_nat (S n))
    end.
Proof.
  unfold replay.
  destruct (fold_record_frequency c history (init base)) as [H1 H2].
  cbn [init command_frequency] in H1, H2. rewrite lookup_empty in H1, H2.
  cbn [default] in H1. unfold id in H1.
  destruct (successes_of c history) as [|n] eqn:E.
  - apply H2. split; reflexivity.
  - destruct (command_frequency (fold_left record history (init base)) !! c)
      as [z|] eqn:Ez.
    + cbn [default] in H1. unfold id in H1. rewrite H1. reflexivity.
    + destruct H2 as [H2 _]. destruct (H2 eq_refl) as [_ Hz]. discriminate.
Qed.

(** X13.  On a fresh tracker that recorded a run of failures, an
    utterance is offered as a permanent variant exactly when at least
    three of the failures carry its key and one of them scored 5 or
    more; the offer then names the text, the command and the number of
    attempts. *)
Theorem learn_after_three_attempts (base : Q) (calls : list (Q * str * Q))
    (text command : str) :
  let m := record_failures (init base) calls in
  let scores := scores_for (pronunciation_key text) calls in
  let eligible := (3 <= length scores)%nat /\ Exists (fun s => 5 <= s) scores in
  (eligible ->
   learn_common_pronunciation m text command
   = Some {| learned_text := text; learned_command := command;
             should_add := true;
             attempted := Z.of_nat (length scores) |}) /\
  (~ eligible -> learn_common_pronunciation m text command = None).
Proof.
  intros m scores eligible. subst eligible.
  pose proof (record_failures_tracks (pronunciation_key text) calls
                (init base) []) as Ht.
  cbn [app] in Ht. fold m scores in Ht.
  assert (H0 : tracks (user_pronunciations (init base)
                       !! pronunciation_key text) []).
  { cbn. rewrite lookup_empty. reflexivity. }
  specialize (Ht H0). unfold learn_common_pronunciation, tracks in *.
  destruct (user_pronunciations m !! pronunciation_key text) as [info|].
  - destruct Ht as (Ha & Hin & Hall). split.
    + intros [H3 Hex].
      assert (E1 : (3 <=? attempts info)%Z = true) by (apply Z.leb_le; lia).
      assert (E2 : Qle_bool 5 (best_score info) = true).
      { apply Qle_bool_iff. apply Exists_exists in Hex as (s & Hs & H5).
        rewrite Forall_forall in Hall. specialize (Hall s Hs). lra. }
      rewrite E1, E2, Ha. reflexivity.
    + intros Hn.
      destruct (3 <=? attempts info)%Z eqn:E1; [|reflexivity].
      destruct (Qle_bool 5 (best_score info)) eqn:E2; [|reflexivity].
      exfalso. apply Hn. apply Z.leb_le in E1. apply Qle_bool_iff in E2.
      split; [lia|]. apply Exists_exists. exists (best_score info).
      split; [apply list_elem_of_In, Hin | exact E2].
  - rewrite Ht. split; [intros [H3 _]; cbn in H3; lia | reflexivity].
Qed.

Lemma failure_rate_high_iff (m : t) :
  Qltb (1#2) (failure_rate m) = true <-> (6 <= length (recent_failures m))%nat.
Proof.
  split; [|apply high_failure_rate].
  intros H. apply Qltb_lt in H. unfold failure_rate in H.
  destruct (recent_failures m) as [|x l]; [lra|].
  unfold len in H. remember (Z.of_nat (length (x :: l))) as n eqn:En.
  assert (5 < n)%Z; [|lia].
  unfold Qdiv, Qlt in H. cbn in H. lia.
Qed.

(** X14.  [adjust_threshold] fails to return (the name [reason] is
    unbound) exactly when the failure window holds six or more entries
    and the base threshold is not 6.  Whether or not it returns,
    [current_threshold] ends clamped to [3.0, 8.0] and nothing else of
    the tracker changes. *)
Theorem adjust_threshold_raises_iff (m : t) :
  let m' := fst (adjust_threshold m) in
  (snd (adjust_threshold m) = None <->
   (6 <= length (recent_failures m))%nat /\ ~ base_threshold m == 6) /\
  3 <= current_threshold m' <= 8 /\
  m' = set_current_threshold m (current_threshold m').
Proof.
  cbn zeta. split; [|split; [apply clamp_bounds | reflexivity]].
  unfold adjust_threshold. cbn [snd]. unfold reason.
  rewrite <- failure_rate_high_iff.
  destruct (Qltb (1#2) (failure_rate m)).
  - destruct (Qeq_bool (base_threshold m) 6) eqn:E.
    + apply Qeq_bool_iff in E. split; [discriminate | tauto].
    + apply Qeq_bool_neq in E. tauto.
  - split; [discriminate | intros [H _]; discriminate].
Qed.

(** X15.  On a default tracker with any history, the threshold handed
    out for a command is the adjusted threshold, lowered by 0.5 (but
    not below 3.0) exactly when more than ten successes were recorded
    for that command. *)
Theorem leniency_after_ten_successes (history : list outcome) (c : str) :
  c <> [] ->
  let m := replay 6 history in
  let adjusted := current_threshold (fst (adjust_threshold m)) in
  snd (get_adaptive_threshold m (Some c))
  = Some (if Nat.ltb 10 (successes_of c history)
          then py_max 3 (adjusted - (1#2))
          else adjusted).
Proof.
  intros Hc m adjusted.
  assert (Hb : base_threshold m = 6).
  { unfold m, replay. rewrite fold_record_base. reflexivity. }
  destruct (reason_bound m Hb) as [r Hr].
  unfold get_adaptive_threshold, adjust_threshold. rewrite Hr. cbn [snd].
  f_equal. destruct c as [|c0 c]; [contradiction|].
  cbn [command_frequency set_current_threshold].
  destruct (fold_record_frequency (c0 :: c) history (init 6)) as [H1 H2].
  fold (replay 6 history) in H1, H2. fold m in H1, H2.
  cbn [init command_frequency] in H1, H2. rewrite lookup_empty in H1, H2.
  unfold default in H1. cbn [from_option] in H1. unfold id in H1.
  match type of H1 with
  | context [match ?x with Some _ => _ | None => _ end] =>
      match goal with
      | |- context [match ?y with Some _ => _ | None => _ end] =>
          change y with x; destruct x as [freq|]
      end
  end.
  - assert (freq = Z.of_nat (successes_of (c0 :: c) history)) by lia.
    subst freq.
    destruct (Nat.ltb_spec 10 (successes_of (c0 :: c) history)) as [Hn|Hn].
    + replace (10 <? _)%Z with true by (symmetry; apply Z.ltb_lt; lia).
      reflexivity.
    + replace (10 <? _)%Z with false by (symmetry; apply Z.ltb_ge; lia).
      reflexivity.
  - destruct H2 as [H2 _]. destruct (H2 eq_refl) as [_ ->]. reflexivity.
Qed.

End History.

(** ** More of the variant generator *)

Section Generator.
Import PhonemeVariants Predicates.

Lemma list_set_NoDup (l : list str) : NoDup (list_set l).
Proof. apply NoDup_remove_dups. Qed.

Lemma list_set_fixed (l : list str) : NoDup l -> list_set l = l.
Proof.
  unfold list_set. induction 1 as [|x l Hx _ IH]; cbn [remove_dups];
    [reflexivity|].
  destruct (decide_rel elem_of x l) as [Hin|_]; [contradiction|].
  rewrite IH. reflexivity.
Qed.

Lemma generate_variants_NoDup (phrase : str) (variants : list str) :
  generate_variants phrase = Some variants -> NoDup variants.
Proof.
  unfold generate_variants.
  destruct (List.map word_variants_of (split (lower phrase)))
    as [|wv0 [|wv1 [|wv2 wvs]]]; intros H; try discriminate;
    match type of H with
    | Some ?l = Some _ => assert (Hv : variants = l) by congruence
    end;
    rewrite Hv; apply list_set_NoDup.
Qed.

(** X16.  [generate_variants] returns exactly when the phrase has a
    token; what it returns then has no duplicates and contains the
    phrase as it was given. *)
Theorem generate_variants_returns (phrase : str) :
  match generate_variants phrase with
  | Some variants =>
      split (lower phrase) <> [] /\ NoDup variants /\ phrase ∈ variants
  | None => split (lower phrase) = []
  end.
Proof.
  destruct (generate_variants phrase) as [variants|] eqn:E.
  - split; [|split].
    + intros Hn. apply generate_variants_raises in Hn. congruence.
    + eapply generate_variants_NoDup, E.
    + apply generate_variants_contains_phrase, E.
  - apply generate_variants_raises, E.
Qed.

Lemma unknown_region_same_list (phrase region : str) :
  mem region known_regions = false ->
  add_regional_variants phrase region = generate_variants phrase.
Proof.
  intros Hr. unfold add_regional_variants.
  destruct (generate_variants phrase) as [variants|] eqn:E; [|reflexivity].
  unfold mem, known_regions in *. apply bool_decide_eq_false_1 in Hr.
  rewrite !bool_decide_eq_false_2.
  - rewrite list_set_fixed; [reflexivity|].
    eapply generate_variants_NoDup, E.
  - intros H. apply Hr. apply elem_of_cons in H as [->|H];
      [|apply list_elem_of_singleton in H as ->];
      repeat first [left; reflexivity | right].
  - intros H. apply Hr. apply elem_of_cons in H as [->|H];
      [|apply list_elem_of_singleton in H as ->];
      repeat first [left; reflexivity | right].
  - intros H. apply Hr. apply elem_of_cons in H as [->|H];
      [|apply list_elem_of_singleton in H as ->];
      repeat first [left; reflexivity | right].
Qed.

(** X17.  For a region other than javanese, sundanese, betawi and
    mixed, [add_regional_variants] adds nothing: it raises when
    [generate_variants] raises, and otherwise returns the variants
    [generate_variants] returns, each once. *)
Theorem unknown_region_adds_nothing (phrase region : str) :
  mem region known_regions = false ->
  match add_regional_variants phrase region, generate_variants phrase with
  | Some regional, Some variants =>
      NoDup regional /\ forall v, v ∈ regional <-> v ∈ variants
  | None, None => True
  | _, _ => False
  end.
Proof.
  intros Hr. rewrite (unknown_region_same_list phrase region Hr).
  destruct (generate_variants phrase) as [variants|] eqn:E; [|exact I].
  split; [eapply generate_variants_NoDup, E | reflexivity].
Qed.

Lemma flat_map_mono {A B} (f : A -> list B) (l1 l2 : list A) :
  (forall x, x ∈ l1 -> x ∈ l2) ->
  forall y, y ∈ flat_map f l1 -> y ∈ flat_map f l2.
Proof.
  intros Hsub y. rewrite !list_elem_of_In, !in_flat_map.
  intros (x & Hx & Hy). exists x. split; [|exact Hy].
  apply list_elem_of_In, Hsub, list_elem_of_In, Hx.
Qed.

Lemma map_mono {A B} (f : A -> B) (l1 l2 : list A) :
  (forall x, x ∈ l1 -> x ∈ l2) ->
  forall y, y ∈ List.map f l1 -> y ∈ List.map f l2.
Proof.
  intros Hsub y. rewrite !list_elem_of_In, !in_map_iff.
  intros (x & Hy & Hx). exists x. split; [exact Hy|].
  apply list_elem_of_In, Hsub, list_elem_of_In, Hx.
Qed.

Lemma steps_within_all (j s b : bool) (variants : list str) (v : str) :
  v ∈ steps j s b variants -> v ∈ steps true true true variants.
Proof.
  unfold steps.
  set (V1 := if j then variants ++ javanese variants else variants).
  set (W1 := variants ++ javanese variants).
  assert (H1 : forall x, x ∈ V1 -> x ∈ W1).
  { subst V1 W1. destruct j; intros x Hx; [exact Hx|].
    apply elem_of_app. left. exact Hx. }
  set (V2 := if s then V1 ++ sundanese V1 else V1).
  set (W2 := W1 ++ sundanese W1).
  assert (H2 : forall x, x ∈ V2 -> x ∈ W2).
  { subst V2 W2. destruct s; intros x Hx.
    - apply elem_of_app in Hx as [Hx|Hx]; apply elem_of_app.
      + left. apply H1, Hx.
      + right. unfold PhonemeVariants.sundanese in *. eapply flat_map_mono; eassumption.
    - apply elem_of_app. left. apply H1, Hx. }
  destruct b; intros Hv.
  - apply elem_of_app in Hv as [Hv|Hv]; apply elem_of_app.
    + left. apply H2, Hv.
    + right. unfold PhonemeVariants.betawi in *. eapply map_mono; eassumption.
  - apply elem_of_app. left. apply H2, Hv.
Qed.

(** X18.  Whatever the region, every variant [add_regional_variants]
    returns is also returned for the region "mixed". *)
Theorem regions_within_mixed (phrase region : str)
    (regional mixed : list str) :
  add_regional_variants phrase region = Some regional ->
  add_regional_variants phrase (py "mixed") = Some mixed ->
  forall v, v ∈ regional -> v ∈ mixed.
Proof.
  unfold add_regional_variants.
  destruct (generate_variants phrase) as [variants|]; [|discriminate].
  intros Hr Hm v Hv.
  change (mem (py "mixed") [py "javanese"; py "mixed"]) with true in Hm.
  change (mem (py "mixed") [py "sundanese"; py "mixed"]) with true in Hm.
  change (mem (py "mixed") [py "betawi"; py "mixed"]) with true in Hm.
  cbv iota in Hm.
  match type of Hr with
  | Some (list_set ?l) = _ => assert (Er : regional = list_set l) by congruence
  end.
  match type of Hm with
  | Some (list_set ?l) = _ => assert (Em : mixed = list_set l) by congruence
  end.
  rewrite Er in Hv. rewrite Em. unfold list_set in *.
  rewrite elem_of_remove_dups. rewrite elem_of_remove_dups in Hv.
  apply (steps_within_all
           (mem region [py "javanese"; py "mixed"])
           (mem region [py "sundanese"; py "mixed"])
           (mem region [py "betawi"; py "mixed"]) variants v).
  exact Hv.
Qed.

(** X19.  For a phrase of more than two words only the first two words
    vary: the result holds the phrase as given and, for every pair of
    variants of the first and the second word, the pair followed by the
    remaining words in lower case, single-spaced - and nothing else. *)
Theorem long_phrases_vary_two_words (phrase w0 w1 w2 : str) (ws : list str) :
  split (lower phrase) = w0 :: w1 :: w2 :: ws ->
  exists variants,
    generate_variants phrase = Some variants /\
    forall v, v ∈ variants <->
      v = phrase \/
      exists v1 v2,
        v1 ∈ word_variants_of w0 /\ v2 ∈ word_variants_of w1 /\
        v = v1 ++ py " " ++ v2 ++ py " " ++ join (py " ") (w2 :: ws).
Proof.
  intros Hw. unfold generate_variants. rewrite Hw.
  cbn [List.map List.skipn]. eexists. split; [reflexivity|].
  intros v. unfold list_set. rewrite elem_of_remove_dups, elem_of_cons.
  rewrite list_elem_of_In, in_flat_map. split.
  - intros [H|(v1 & Hv1 & H)]; [left; exact H|]. right.
    apply in_map_iff in H as (v2 & <- & Hv2).
    exists v1, v2. rewrite !list_elem_of_In. repeat split; assumption.
  - intros [H|(v1 & v2 & Hv1 & Hv2 & ->)]; [left; exact H|]. right.
    exists v1. rewrite <- list_elem_of_In. split; [exact Hv1|].
    apply in_map_iff. exists v2. rewrite <- list_elem_of_In.
    split; [reflexivity | exact Hv2].
Qed.

Lemma apply_pattern_keeps (word original : str) (variants_list : list str)
    (variants : list str) :
  NoDup variants -> word ∈ variants ->
  NoDup (apply_pattern word original variants_list variants) /\
  word ∈ apply_pattern word original variants_list variants.
Proof.
  revert variants. induction variants_list as [|variant rest IH];
    intros variants Hnd Hin; cbn [apply_pattern]; [split; assumption|].
  apply IH.
  - unfold mem. case_bool_decide as E; [exact Hnd|].
    apply NoDup_app. split; [exact Hnd|]. split.
    + intros x Hx Hx'. apply list_elem_of_singleton in Hx'. subst x.
      contradiction.
    + apply NoDup_singleton.
  - destruct (mem _ variants); [exact Hin|].
    apply elem_of_app. left. exact Hin.
Qed.

Lemma apply_patterns_keeps (word : str) (patterns : list (str * list str))
    (variants : list str) :
  NoDup variants -> word ∈ variants ->
  NoDup (apply_patterns word patterns variants) /\
  word ∈ apply_patterns word patterns variants.
Proof.
  revert variants. induction patterns as [|[original vl] rest IH];
    intros variants Hnd Hin; cbn [apply_patterns]; [split; assumption|].
  destruct (contains original word); [|apply IH; assumption].
  destruct (apply_pattern_keeps word original vl variants Hnd Hin).
  apply IH; assumption.
Qed.

Lemma apply_patterns_plain (word : str) (patterns : list (str * list str))
    (variants : list str) :
  forallb (fun item => negb (contains (fst item) word)) patterns = true ->
  apply_patterns word patterns variants = variants.
Proof.
  revert variants. induction patterns as [|[original vl] rest IH];
    intros variants H; cbn [apply_patterns]; [reflexivity|].
  cbn [forallb fst] in H. apply andb_true_iff in H as [H1 H2].
  apply negb_true_iff in H1. rewrite H1. apply IH, H2.
Qed.

(** X20.  The variants generated for a word not in the substitution
    table contain the word and have no duplicates; a word in which no
    vowel or consonant pattern occurs has itself as its only variant. *)
Theorem word_variants_contain_word (word : str) :
  word ∈ _generate_word_variants word /\
  NoDup (_generate_word_variants word) /\
  (forallb (fun item => negb (contains (fst item) word))
           (VOWEL_PATTERNS ++ CONSONANT_PATTERNS) = true ->
   _generate_word_variants word = [word]).
Proof.
  unfold _generate_word_variants.
  assert (H0 : NoDup [word] /\ word ∈ [word]).
  { split; [apply NoDup_singleton | left]. }
  destruct H0 as [Hnd Hin].
  destruct (apply_patterns_keeps word VOWEL_PATTERNS [word] Hnd Hin)
    as [Hnd1 Hin1].
  destruct (apply_patterns_keeps word CONSONANT_PATTERNS _ Hnd1 Hin1)
    as [Hnd2 Hin2].
  split; [|split].
  - unfold list_set. apply elem_of_remove_dups. exact Hin2.
  - apply list_set_NoDup.
  - rewrite forallb_app, andb_true_iff. intros [Hv Hc].
    rewrite (apply_patterns_plain word VOWEL_PATTERNS) by exact Hv.
    rewrite (apply_patterns_plain word CONSONANT_PATTERNS) by exact Hc.
    apply list_set_fixed, NoDup_singleton.
Qed.

End Generator.

(** ** [_to_phonetic] *)

Section Phonetic.
Import PhonemeVariants Predicates.

Lemma replace_single (a b : char) (s : str) :
  replace [a] [b] s = List.map (swap_char a b) s.
Proof.
  unfold replace. induction s as [|c s IH]; [reflexivity|].
  cbn [replace_from startswith List.map length Nat.pred]. unfold swap_char at 1.
  destruct (N.eqb a c); cbn [andb]; rewrite IH; reflexivity.
Qed.

Lemma fold_replace_single (pairs : list (char * char)) (s : str) :
  fold_left (fun phonetic item => replace (fst item) (snd item) phonetic)
            (List.map (fun p => ([fst p], [snd p])) pairs) s
  = List.map (fold_left (fun c item => swap_char (fst item) (snd item) c) pairs) s.
Proof.
  revert s. induction pairs as [|[a b] pairs IH]; intros s; cbn [fold_left List.map fst snd].
  - rewrite map_id. reflexivity.
  - rewrite replace_single, IH, List.map_map. reflexivity.
Qed.

Lemma to_phonetic_map (word : str) :
  _to_phonetic word = List.map to_phonetic_char word.
Proof.
  unfold _to_phonetic.
  change replacements
    with (List.map (fun p : char * char => ([fst p], [snd p])) char_replacements).
  rewrite fold_replace_single. unfold lower. rewrite List.map_map. reflexivity.
Qed.

Lemma phonetic_after_swap_char (o v : char) (word : str) :
  to_phonetic_char v = to_phonetic_char o ->
  _to_phonetic (replace [o] [v] word) = _to_phonetic word.
Proof.
  intros H. rewrite replace_single, !to_phonetic_map, List.map_map.
  apply map_ext. intros c. unfold swap_char.
  destruct (N.eqb_spec o c) as [->|_]; [exact H | reflexivity].
Qed.

(** X21.  Accent variants normalise back: replacing a vowel of a word
    by one of its accented forms of [VOWEL_PATTERNS], the schwa
    excepted, does not change what [_to_phonetic] returns. *)
Theorem accent_variants_normalise_back (word original variant : str)
    (variants_list : list str) :
  (original, variants_list) ∈ VOWEL_PATTERNS ->
  variant ∈ variants_list -> variant <> schwa ->
  _to_phonetic (replace original variant word) = _to_phonetic word.
Proof.
  intros Hp Hv Hs. unfold VOWEL_PATTERNS in Hp.
  repeat (apply elem_of_cons in Hp as [Hp|Hp]);
    try (apply elem_of_nil in Hp; destruct Hp);
    injection Hp as -> ->;
    repeat (apply elem_of_cons in Hv as [Hv|Hv]);
    try (apply elem_of_nil in Hv; destruct Hv);
    subst variant; try (exfalso; apply Hs; reflexivity);
    apply phonetic_after_swap_char; reflexivity.
Qed.

End Phonetic.

(** ** What the validator hands on *)

Section Sanitized.
Import InputValidator Predicates.










(** X23.  Removing characters can create what the checks look for: the
    validator accepts "ex@ec" and hands on "exec", a text its own
    keyword check refuses; it accepts "-@-" and hands on "--", a text
    its own pattern check refuses. *)
Theorem sanitizing_can_create_refused_text :
  (exists text s, validate_and_sanitize text = Sanitized s /\
                  check_injection_attempt s = true) /\
  (exists text s, validate_and_sanitize text = Sanitized s /\
                  is_dangerous s = true).
Proof.
  split.
  - exists (py "ex@ec"), (py "exec"). split; reflexivity.
  - exists (py "-@-"), (py "--"). split; reflexivity.
Qed.

Lemma startswith_app (d q : str) : startswith d (d ++ q) = true.
Proof.
  induction d as [|a d IH]; [reflexivity|]. cbn. rewrite N.eqb_refl. exact IH.
Qed.

(** X24.  [validate_file_path] never accepts a path that contains ".."
    or starts with "/", and it accepts every other path that starts
    with "logs", "data", "cache" or "." - as a prefix of the text, not
    as a directory name. *)
Theorem validate_file_path_prefixes (filepath : str) :
  (validate_file_path filepath = true ->
   contains (py "..") filepath = false /\
   startswith (py "/") filepath = false) /\
  (forall d q, d ∈ safe_dirs -> filepath = d ++ q ->
               contains (py "..") filepath = false ->
               validate_file_path filepath = true).
Proof.
  unfold validate_file_path. split.
  - destruct (contains (py "..") filepath); [discriminate|].
    destruct (startswith (py "/") filepath); [discriminate|].
    intros _. split; reflexivity.
  - intros d q Hd -> Hc. rewrite Hc.
    assert (Hs : startswith (py "/") (d ++ q) = false).
    { unfold safe_dirs in Hd.
      repeat (apply elem_of_cons in Hd as [->|Hd]); try reflexivity.
      apply elem_of_nil in Hd. destruct Hd. }
    rewrite Hs. cbn [orb]. apply existsb_exists. exists d.
    split; [apply list_elem_of_In, Hd | apply startswith_app].
Qed.

End Sanitized.

(** ** Accent training *)

Section Training.
Import SmartVoiceDetector AccentTrainingMode Predicates Scenarios.

Lemma extended_refl (session : list (str * list str))
    (catalog : list (str * CommandData)) :
  Forall2 (extended session) catalog catalog.
Proof.
  induction catalog as [|item catalog IH]; constructor; [|exact IH].
  repeat split. exists []. rewrite app_nil_r. split; [reflexivity|].
  intros t Ht. apply elem_of_nil in Ht. destruct Ht.
Qed.

Lemma extended_step (command : str) (texts : list str)
    (session : list (str * list str)) (old new : str * CommandData) :
  extended session old new ->
  extended ((command, texts) :: session) old new.
Proof.
  intros (H1 & H2 & H3 & extra & H4 & H5). repeat split; try assumption.
  exists extra. split; [exact H4|]. intros t Ht.
  destruct (H5 t Ht) as (c & ts & Hin & Hts). exists c, ts.
  split; [right; exact Hin | exact Hts].
Qed.

Lemma learn_extended (command : str) (texts : list str)
    (session : list (str * list str)) (old new : str * CommandData) :
  extended session old new ->
  extended ((command, texts) :: session) old (learn command texts new).
Proof.
  intros H. unfold learn. destruct new as [name data].
  destruct (matching_command command data);
    [|apply extended_step, H].
  destruct H as (H1 & H2 & H3 & extra & H4 & H5). cbn [fst snd] in *.
  repeat split; try assumption. cbn [phrases].
  exists (extra ++ texts). rewrite H4, app_assoc. split; [reflexivity|].
  intros t Ht. apply elem_of_app in Ht as [Ht|Ht].
  - destruct (H5 t Ht) as (c & ts & Hin & Hts). exists c, ts.
    split; [right; exact Hin | exact Hts].
  - exists command, texts. split; [left | exact Ht].
Qed.

Lemma fold_learn_extended (session done : list (str * list str))
    (catalog0 catalog : list (str * CommandData)) :
  Forall2 (extended done) catalog0 catalog ->
  Forall2 (extended (rev session ++ done)) catalog0
    (fold_left (fun catalog '(command, variant_texts) =>
                  List.map (learn command variant_texts) catalog)
               session catalog).
Proof.
  revert done catalog. induction session as [|[command texts] session IH];
    intros done catalog H; cbn [fold_left rev app]; [exact H|].
  rewrite <- app_assoc. cbn [app]. apply IH.
  clear IH. induction H as [|old new l l' Hx _ IHf]; cbn [List.map];
    constructor; [apply learn_extended, Hx | exact IHf].
Qed.

(** X25.  Training only appends: after [_save_training] the catalog has
    the same commands in the same order with the same weights and
    descriptions; each phrase list starts with the old list, and what
    follows are texts of the session.  Nothing else of the detector
    changes. *)
Theorem training_only_appends (d : SmartVoiceDetector.t)
    (session : list (str * list str)) :
  let d' := _save_training d session in
  Forall2 (extended session) (wake_words d) (wake_words d') /\
  adaptive_matcher d' = adaptive_matcher d /\
  last_execution_time d' = last_execution_time d /\
  cooldown_seconds d' = cooldown_seconds d /\
  unrecognized_commands d' = unrecognized_commands d.
Proof.
  cbn zeta. split; [|repeat split].
  cbn [_save_training wake_words].
  pose proof (fold_learn_extended session [] (wake_words d) (wake_words d)
                (extended_refl [] _)) as H.
  rewrite app_nil_r in H.
  eapply Forall2_impl; [exact H|].
  intros old new (H1 & H2 & H3 & extra & H4 & H5). repeat split; try assumption.
  exists extra. split; [exact H4|]. intros t Ht.
  destruct (H5 t Ht) as (c & ts & Hin & Hts). exists c, ts.
  split; [|exact Hts]. apply list_elem_of_In, in_rev, list_elem_of_In. exact Hin.
Qed.

Lemma learn_fixed_member (command : str) (texts : list str)
    (item : str * CommandData) (catalog : list (str * CommandData)) :
  learn command texts item = item -> item ∈ catalog ->
  item ∈ List.map (learn command texts) catalog.
Proof.
  intros Hfix Hin. rewrite <- Hfix. apply list_elem_of_In, in_map.
  apply list_elem_of_In, Hin.
Qed.

(** X26.  Training on the six core commands reaches one command only:
    in the catalog [__init__] builds, the description of no command but
    [stop] contains, or is contained in, a core command, so every other
    command keeps its entry whatever the session recorded for it. *)
Theorem core_training_reaches_stop_only (fuzzy : bool)
    (sink : list Unrecognized) (d0 : SmartVoiceDetector.t)
    (session : list (str * list str)) :
  SmartVoiceDetector.init fuzzy sink = Some d0 ->
  Forall (fun recorded => fst recorded ∈ CORE_COMMANDS) session ->
  forall c data, (c, data) ∈ wake_words d0 -> c <> py "stop" ->
                 (c, data) ∈ wake_words (_save_training d0 session).
Proof.
  intros Hinit Hcore c data Hin Hne.
  assert (Hfix : forall command texts,
             command ∈ CORE_COMMANDS -> learn command texts (c, data) = (c, data)).
  { unfold SmartVoiceDetector.init, build_wake_words in Hinit.
    destruct (_expand_with_variants next_seeds) as [np|]; [|discriminate].
    destruct (_expand_with_variants previous_seeds) as [pp|]; [|discriminate].
    assert (Hs : Some d0 = Some d0) by reflexivity.
    rewrite <- Hinit in Hs at 1. injection Hs as <-. cbn [wake_words] in Hin.
    intros command texts Hcmd. unfold learn.
    assert (Hm : matching_command command data = false); [|rewrite Hm; reflexivity].
    unfold entry in Hin.
    repeat (apply elem_of_cons in Hin as [Hin|Hin]);
      try (apply elem_of_nil in Hin; destruct Hin);
      injection Hin as -> ->; try (exfalso; apply Hne; reflexivity);
      unfold CORE_COMMANDS in Hcmd; cbn [List.map] in Hcmd;
      repeat (apply elem_of_cons in Hcmd as [->|Hcmd]);
      try (apply elem_of_nil in Hcmd; destruct Hcmd);
      vm_compute; reflexivity. }
  cbn [_save_training wake_words]. revert Hin. generalize (wake_words d0).
  induction Hcore as [|[command texts] session Hc _ IH]; intros catalog Hin;
    cbn [fold_left]; [exact Hin|].
  apply IH. apply learn_fixed_member; [apply Hfix, Hc | exact Hin].
Qed.

End Training.

(** ** [_expand_with_variants] *)

Section Expansion.
Import SmartVoiceDetector PhonemeVariants Scenarios.

Lemma expand_loop_tokens (seeds expanded out : list str) :
  expand_loop seeds expanded = Some out ->
  Forall (fun seed => split (lower seed) <> []) seeds.
Proof.
  revert expanded. induction seeds as [|seed seeds IH]; intros expanded;
    cbn [expand_loop]; [constructor|].
  destruct (generate_variants seed) as [variants|] eqn:Eg; [|discriminate].
  destruct (add_regional_variants seed (py "mixed")); [|discriminate].
  intros H. constructor; [|eapply IH, H].
  intros Hn. apply generate_variants_raises in Hn. congruence.
Qed.

(** X27.  [_expand_with_variants] returns exactly when every seed
    phrase has a token; the list it returns has no duplicates and holds
    every seed, short ones included. *)
Theorem expansion_returns (seeds : list str) :
  match _expand_with_variants seeds with
  | Some out =>
      Forall (fun seed => split (lower seed) <> []) seeds /\
      NoDup out /\ forall seed, seed ∈ seeds -> seed ∈ out
  | None => ~ Forall (fun seed => split (lower seed) <> []) seeds
  end.
Proof.
  destruct (_expand_with_variants seeds) as [out|] eqn:E.
  - split; [|split].
    + unfold _expand_with_variants in E.
      destruct (expand_loop seeds []) as [expanded|] eqn:El; [|discriminate].
      eapply expand_loop_tokens, El.
    + unfold _expand_with_variants in E.
      destruct (expand_loop seeds []); [|discriminate].
      match type of E with
      | Some ?l = Some _ => assert (Ho : out = l) by congruence
      end.
      rewrite Ho. apply NoDup_remove_dups.
    + intros seed Hs. apply (expand_with_variants_elem seeds out E).
      left. exact Hs.
  - intros H. destruct (expand_with_variants_returns seeds H) as [out Ho].
    congruence.
Qed.

End Expansion.

(** ** The catalog after accent training *)

Section Trained.
Local Open Scope Q_scope.
Import SmartVoiceDetector InputValidator Predicates Scenarios PhonemeVariants
  AccentTrainingMode.

(** *** No capital S in an expansion *)























(** *** The law of C4 on the trained catalog *)



End Trained.

(** ** The properties at concrete inputs *)

Section Instances.
Local Open Scope Q_scope.
Import SmartVoiceDetector InputValidator Predicates Scenarios AdaptiveMatcher
  PhonemeVariants AccentTrainingMode.

Lemma no_fuzz_bounded (a b : str) (similarity : Z) :
  no_fuzz a b = Some similarity -> (similarity <= 100)%Z.
Proof. discriminate. Qed.

Lemma none_leaves_detector_unchanged_witness :
  returned (fst (detect no_fuzz after_next_slide 101 (py "next slide")))
  = PyNone /\
  snd (detect no_fuzz after_next_slide 101 (py "next slide"))
  = after_next_slide.
Proof.
  assert (H : returned (fst (detect no_fuzz after_next_slide 101
                               (py "next slide"))) = PyNone)
    by (vm_compute; reflexivity).
  split; [exact H|].
  exact (none_leaves_detector_unchanged no_fuzz after_next_slide 101
           (py "next slide") H).
Defined.

Lemma next_slide_matched :
  fst (detect no_fuzz scenario_A 100 (py "next slide"))
  = Matched (exact_candidate (py "next")
               {| phrases := [py "next slide"]; weight := 10;
                  description := py "Slide maju" |} (py "next slide")).
Proof. vm_compute. reflexivity. Qed.

Lemma matched_is_sound_witness :
  exists best,
    fst (detect no_fuzz scenario_A 100 (py "next slide")) = Matched best /\
    validate_command (command best) = true /\ 8 <= score best /\
    exists data,
      (command best, data) ∈ wake_words scenario_A /\
      phrase best ∈ phrases data /\
      max_score best = (weight data + 20)%Z /\
      cand_description best = description data.
Proof.
  eexists. split; [exact next_slide_matched|].
  exact (matched_is_sound no_fuzz scenario_A 100 (py "next slide") _
           next_slide_matched).
Defined.

Lemma matched_updates_state_witness :
  let d' := snd (detect no_fuzz scenario_A 100 (py "next slide")) in
  last_execution_time d' = 100 /\
  recent_successes (adaptive_matcher d') = [inject_Z 30] /\
  command_frequency (adaptive_matcher d') !! py "next" = Some 1%Z /\
  recent_failures (adaptive_matcher d') = [] /\
  unrecognized_commands d' = [].
Proof.
  destruct (matched_updates_state no_fuzz scenario_A 100 (py "next slide") _
              next_slide_matched) as (H1 & H2 & H3 & H4 & _ & H6).
  cbv zeta. split; [exact H1|]. split; [exact H2|]. split; [exact H3|].
  split; [exact H4 | exact H6].
Defined.

Lemma best_match_has_highest_score_witness :
  fst (detect no_fuzz low_weight 100 (py "next page"))
  = LowConfidence next_page_candidate (py "next page") /\
  exists s,
    validate_and_sanitize (py "next page") = Sanitized s /\
    next_page_candidate ∈ scan no_fuzz low_weight (strip (lower s)) /\
    forall y, y ∈ scan no_fuzz low_weight (strip (lower s)) ->
              score y <= score next_page_candidate.
Proof.
  assert (H : fst (detect no_fuzz low_weight 100 (py "next page"))
              = LowConfidence next_page_candidate (py "next page"))
    by (vm_compute; reflexivity).
  split; [exact H|].
  apply (best_match_has_highest_score no_fuzz low_weight 100 (py "next page")
           next_page_candidate).
  right. exists (py "next page"). exact H.
Defined.

Lemma heavy_catalog_never_low_confidence_witness :
  (forall best u,
     fst (detect no_fuzz scenario_A 100 (py "next page"))
     <> LowConfidence best u) /\
  recent_failures
    (adaptive_matcher (snd (detect no_fuzz scenario_A 100 (py "next page"))))
  = [].
Proof.
  destruct (heavy_catalog_never_low_confidence no_fuzz scenario_A 100
              (py "next page")) as (H1 & H2 & _).
  - intros c data Hin. apply list_elem_of_singleton in Hin.
    injection Hin as _ ->. cbn [weight]. lia.
  - split; [exact H1 | exact H2].
Defined.

Lemma candidate_scores_bounded_witness :
  let x := exact_candidate (py "next")
             {| phrases := [py "next slide"]; weight := 10;
                description := py "Slide maju" |} (py "next slide") in
  x ∈ scan no_fuzz scenario_A (py "next slide") /\
  0 < score x /\
  ((length (split (phrase x)) <= 6)%nat -> score x <= inject_Z (max_score x)).
Proof.
  intros x.
  assert (Hin : x ∈ scan no_fuzz scenario_A (py "next slide")).
  { assert (E : scan no_fuzz scenario_A (py "next slide") = [x])
      by (vm_compute; reflexivity).
    rewrite E. left. }
  split; [exact Hin|].
  exact (candidate_scores_bounded no_fuzz scenario_A (py "next slide") x
           no_fuzz_bounded Hin).
Defined.

Lemma shipped_detector_exits_witness :
  exists d0,
    SmartVoiceDetector.init false [] = Some d0 /\
    match fst (detect no_fuzz d0 100 (py "next page")) with
    | LowConfidence _ _ | CommandRejected _ => False
    | _ => True
    end.
Proof.
  destruct (init_returns false []) as [d0 Hd0]. exists d0.
  split; [exact Hd0|].
  exact (shipped_detector_exits no_fuzz false [] d0 d0 100 (py "next page")
           Hd0 eq_refl).
Defined.

Lemma leniency_after_ten_successes_witness :
  let history := repeat (Success (py "next") 10) 11 in
  let m := replay 6 history in
  py "next" <> [] /\
  snd (get_adaptive_threshold m (Some (py "next")))
  = Some (if Nat.ltb 10 (successes_of (py "next") history)
          then py_max 3 (current_threshold (fst (adjust_threshold m)) - (1#2))
          else current_threshold (fst (adjust_threshold m))).
Proof.
  intros history m.
  assert (Hc : py "next" <> []) by discriminate.
  split; [exact Hc|].
  exact (leniency_after_ten_successes history (py "next") Hc).
Defined.

Lemma unknown_region_adds_nothing_witness :
  mem (py "bali") known_regions = false /\
  match add_regional_variants (py "next slide") (py "bali"),
        generate_variants (py "next slide") with
  | Some regional, Some variants =>
      NoDup regional /\ forall v, v ∈ regional <-> v ∈ variants
  | None, None => True
  | _, _ => False
  end.
Proof.
  assert (H : mem (py "bali") known_regions = false)
    by (vm_compute; reflexivity).
  split; [exact H|].
  exact (unknown_region_adds_nothing (py "next slide") (py "bali") H).
Defined.

Lemma regions_within_mixed_witness :
  match add_regional_variants (py "stop") (py "javanese"),
        add_regional_variants (py "stop") (py "mixed") with
  | Some regional, Some mixed => forall v, v ∈ regional -> v ∈ mixed
  | _, _ => False
  end.
Proof.
  destruct (add_regional_variants (py "stop") (py "javanese"))
    as [regional|] eqn:Er; [|vm_compute in Er; discriminate Er].
  destruct (add_regional_variants (py "stop") (py "mixed"))
    as [mixed|] eqn:Em; [|vm_compute in Em; discriminate Em].
  exact (regions_within_mixed (py "stop") (py "javanese") regional mixed
           Er Em).
Defined.

Lemma long_phrases_vary_two_words_witness :
  split (lower (py "Open slide show")) = [py "open"; py "slide"; py "show"] /\
  exists variants,
    generate_variants (py "Open slide show") = Some variants /\
    forall v, v ∈ variants <->
      v = py "Open slide show" \/
      exists v1 v2,
        v1 ∈ word_variants_of (py "open") /\
        v2 ∈ word_variants_of (py "slide") /\
        v = v1 ++ py " " ++ v2 ++ py " " ++ join (py " ") [py "show"].
Proof.
  assert (H : split (lower (py "Open slide show"))
              = [py "open"; py "slide"; py "show"])
    by (vm_compute; reflexivity).
  split; [exact H|].
  exact (long_phrases_vary_two_words (py "Open slide show") (py "open")
           (py "slide") (py "show") [] H).
Defined.

Lemma accent_variants_normalise_back_witness :
  _to_phonetic (replace (py "e") e_acute (py "next"))
  = _to_phonetic (py "next").
Proof.
  apply (accent_variants_normalise_back (py "next") (py "e") e_acute
           [py "e"; e_acute; e_grave; schwa]).
  - left.
  - right. left.
  - discriminate.
Defined.


Lemma core_training_reaches_stop_only_witness :
  exists d0,
    SmartVoiceDetector.init false [] = Some d0 /\
    entry "test" test_phrases 8 "Test microphone"
      ∈ wake_words (_save_training d0 training_session).
Proof.
  destruct (init_returns false []) as [d0 Hd0]. exists d0.
  split; [exact Hd0|].
  apply (core_training_reaches_stop_only false [] d0 training_session Hd0).
  - repeat (constructor; [apply mem_true; vm_compute; reflexivity|]).
    constructor.
  - destruct (init_fields false [] d0 Hd0) as [Hb _].
    unfold build_wake_words in Hb.
    destruct (_expand_with_variants next_seeds); [|discriminate Hb].
    destruct (_expand_with_variants previous_seeds); [|discriminate Hb].
    assert (Hs : Some (wake_words d0) = Some (wake_words d0)) by reflexivity.
    rewrite <- Hb in Hs at 1. injection Hs as <-.
    do 6 right. left.
  - vm_compute. discriminate.
Defined.

End Instances.
